(** * UT Registration Plus: view components

    A shallow embedding of the three view components of the repository
    (CalendarHeader, SortableList, PopupCourseBlock) and the properties
    of their event handlers.

    React state is modelled by explicit state passing: a [useState] cell is
    a record field, a [setX v] call replaces the field.  Handlers that run
    across an [await] are split at the suspension point into the part that
    runs at the invocation and the continuation that runs at resolution. *)

From Stdlib Require Import ZArith QArith Qround List Bool String Lia.
From Stdlib Require Import Permutation DecimalString Lqa Ascii.
From Stdlib Require DecimalZ DecimalPos.
Import ListNotations.
Open Scope Z_scope.

(* ================================================================== *)
(** * Part I: definitions *)
(* ================================================================== *)

(** ** CalendarHeader.tsx *)

Module CalendarHeader.

Definition SECONDARY_ACTIONS_WITH_TEXT_WIDTH : Z := 274.
Definition PRIMARY_ACTION_WITH_TEXT_WIDTH : Z := 405.
Definition PRIMARY_ACTION_WITHOUT_TEXT_WIDTH : Z := 160.

(** The object held by the [useState] cell of the header. *)
Record DisplayingText : Type := mkDisplayingText {
  isDisplayingPrimaryActionsText : bool;
  isDisplayingSecondaryActionsText : bool
}.

Definition initialDisplayingText : DisplayingText :=
  {| isDisplayingPrimaryActionsText := true;
     isDisplayingSecondaryActionsText := true |}.

(** [Math.round]: the integer nearest to [x], a tie going to the larger
    one.  A finite double is a rational, and on rationals this is
    [floor (x + 1/2)]. *)
Definition Math_round (x : Q) : Z := Qfloor (x + (1 # 2)).

(** Of a [ResizeObserverEntry] the callback reads [contentRect.width]. *)
Record ResizeObserverEntry : Type := mkEntry { contentRect_width : Q }.

(** The body of the callback below [const width = ...]: the argument of the
    [setIsDisplayingText] call it makes, [None] when it makes none. *)
Definition transition (st : DisplayingText) (width : Z) : option DisplayingText :=
  let primary := isDisplayingPrimaryActionsText st in
  let secondary := isDisplayingSecondaryActionsText st in
  if (width <? SECONDARY_ACTIONS_WITH_TEXT_WIDTH) && primary && secondary then
    Some {| isDisplayingPrimaryActionsText := false;
            isDisplayingSecondaryActionsText := true |}
  else if secondary
          && (width - SECONDARY_ACTIONS_WITH_TEXT_WIDTH
              >=? PRIMARY_ACTION_WITH_TEXT_WIDTH - PRIMARY_ACTION_WITHOUT_TEXT_WIDTH) then
    Some {| isDisplayingPrimaryActionsText := true;
            isDisplayingSecondaryActionsText := true |}
  else if (width <? SECONDARY_ACTIONS_WITH_TEXT_WIDTH) && secondary then
    Some {| isDisplayingPrimaryActionsText := false;
            isDisplayingSecondaryActionsText := false |}
  else if (width >=? SECONDARY_ACTIONS_WITH_TEXT_WIDTH) && negb secondary then
    Some {| isDisplayingPrimaryActionsText := false;
            isDisplayingSecondaryActionsText := true |}
  else None.

(** The [ResizeObserver] callback [([entry]) => ...], closed over the
    state [st] of the render that installed it. *)
Definition resizeObserverCallback (st : DisplayingText)
    (entries : list ResizeObserverEntry) : option DisplayingText :=
  match entries with
  | [] => None
  | entry :: _ => transition st (Math_round (contentRect_width entry))
  end.

(** [useState]: a [setIsDisplayingText v] call replaces the state. *)
Definition commit (st : DisplayingText) (upd : option DisplayingText) : DisplayingText :=
  match upd with
  | Some st' => st'
  | None => st
  end.

(** One resize step on an already rounded width. *)
Definition resizeStep (st : DisplayingText) (width : Z) : DisplayingText :=
  commit st (transition st width).

(** One resize observation: the callback runs, the state is committed and
    the effect reinstalls the observer over the new state. *)
Definition observe (st : DisplayingText) (entries : list ResizeObserverEntry)
  : DisplayingText :=
  commit st (resizeObserverCallback st entries).

(** The states the component goes through on a sequence of observations,
    the one it starts from left out. *)
Fixpoint history (st : DisplayingText) (obs : list (list ResizeObserverEntry))
  : list DisplayingText :=
  match obs with
  | [] => []
  | entries :: rest => let st' := observe st entries in st' :: history st' rest
  end.

(** The three display modes of the specification. *)
Definition displayModes : list DisplayingText :=
  [ mkDisplayingText true true; mkDisplayingText false true;
    mkDisplayingText false false ].

(** The transition rules as the specification words them: evaluated in
    order, the first one that applies wins. *)
Definition rule1 (st : DisplayingText) (w : Z) : Prop :=
  st = mkDisplayingText true true /\ w < 274.
Definition rule2 (st : DisplayingText) (w : Z) : Prop :=
  isDisplayingSecondaryActionsText st = true /\ w - 274 >= 405 - 160.
Definition rule3 (st : DisplayingText) (w : Z) : Prop :=
  isDisplayingSecondaryActionsText st = true /\ w < 274.
Definition rule4 (st : DisplayingText) (w : Z) : Prop :=
  isDisplayingSecondaryActionsText st = false /\ w >= 274.

Inductive SpecTransition (st : DisplayingText) (w : Z) : DisplayingText -> Prop :=
| SpecRule1 : rule1 st w ->
    SpecTransition st w (mkDisplayingText false true)
| SpecRule2 : ~ rule1 st w -> rule2 st w ->
    SpecTransition st w (mkDisplayingText true true)
| SpecRule3 : ~ rule1 st w -> ~ rule2 st w -> rule3 st w ->
    SpecTransition st w (mkDisplayingText false false)
| SpecRule4 : ~ rule1 st w -> ~ rule2 st w -> ~ rule3 st w -> rule4 st w ->
    SpecTransition st w (mkDisplayingText false true)
| SpecNoRule : ~ rule1 st w -> ~ rule2 st w -> ~ rule3 st w -> ~ rule4 st w ->
    SpecTransition st w st.

End CalendarHeader.

(** ** SortableList.tsx *)

Module SortableList.

(** [UniqueIdentifier = string | number] of the drag-and-drop library;
    numeric identifiers are integers. *)
Inductive UniqueIdentifier : Type :=
| StringId (s : string)
| NumberId (n : Z).

(** [===] on identifiers: a string is never equal to a number. *)
Definition strict_eq (a b : UniqueIdentifier) : bool :=
  match a, b with
  | StringId s, StringId t => String.eqb s t
  | NumberId n, NumberId m => Z.eqb n m
  | _, _ => false
  end.

(** Of the [active] and [over] objects of a drag event the handlers read
    the identifier. *)
Record Active : Type := mkActive { active_id : UniqueIdentifier }.
Record Over : Type := mkOver { over_id : UniqueIdentifier }.

(** [Array.prototype.splice] clamps its start index: a negative one counts
    from the end, one past the end is the end. *)
Definition spliceStart (len : nat) (start : Z) : nat :=
  Z.to_nat (if start <? 0 then Z.max (Z.of_nat len + start) 0
            else Z.min start (Z.of_nat len)).

Section Items.
Context {T : Type}.
(** [T extends BaseItem]: every item has an [id]. *)
Variable id : T -> UniqueIdentifier.

(** [array.findIndex(p)]: the first index at which [p] holds, -1 when
    there is none. *)
Fixpoint findIndexFrom (p : T -> bool) (l : list T) (k : Z) : Z :=
  match l with
  | [] => -1
  | x :: rest => if p x then k else findIndexFrom p rest (k + 1)
  end.

Definition findIndex (p : T -> bool) (l : list T) : Z := findIndexFrom p l 0.

(** [array.splice(start, 1)]: the element removed, if any, and what is
    left of the array. *)
Definition spliceOut (l : list T) (start : Z) : option T * list T :=
  let k := spliceStart (List.length l) start in
  (nth_error l k, firstn k l ++ skipn (S k) l).

(** [array.splice(start, 0, x)]. *)
Definition spliceIn (l : list T) (start : Z) (x : T) : list T :=
  let k := spliceStart (List.length l) start in
  firstn k l ++ x :: skipn k l.

(** Modelled from the spec: [arrayMove] of the drag-and-drop library is
    not in the repository; the specification describes it as removing
    the item at the first index and reinserting it at the second one.
    Both steps are [splice] calls on a copy of the array, the target
    index being fixed (a negative one counted from the end) before the
    removal.  [None] stands for the array in which [undefined] is
    reinserted because nothing was removed: that is no array of items. *)
Definition arrayMove (array : list T) (from to : Z) : option (list T) :=
  let target := if to <? 0 then Z.of_nat (List.length array) + to else to in
  match spliceOut array from with
  | (Some x, newArray) => Some (spliceIn newArray target x)
  | (None, _) => None
  end.

(** The three [useState] cells of the component. *)
Record State : Type := mkState {
  active : option Active;
  isDragging : bool;
  items : list T
}.

Definition initialState (draggables : list T) : State :=
  {| active := None; isDragging := false; items := draggables |}.

(** A handler leaves a new state and the arguments of the [onChange]
    calls it made, in order. *)
Definition Outcome : Type := State * list (list T).

(** [useEffect(() => setItems(draggables), [draggables])]. *)
Definition syncDraggables (draggables : list T) (st : State) : Outcome :=
  ({| active := active st; isDragging := isDragging st; items := draggables |}, []).

(** [useMemo(() => items.find(item => item.id === active?.id))]. *)
Definition activeItem (st : State) : option T :=
  match active st with
  | Some a => List.find (fun item => strict_eq (id item) (active_id a)) (items st)
  | None => None
  end.

Definition onDragStart (a : Active) (st : State) : Outcome :=
  ({| active := Some a; isDragging := true; items := items st |}, []).

(** [None] when [arrayMove] yields no array of items. *)
Definition onDragEnd (a : Active) (over : option Over) (st : State) : option Outcome :=
  match over with
  | Some o =>
      if negb (strict_eq (active_id a) (over_id o)) then
        let activeIndex := findIndex (fun item => strict_eq (id item) (active_id a)) (items st) in
        let overIndex := findIndex (fun item => strict_eq (id item) (over_id o)) (items st) in
        match arrayMove (items st) activeIndex overIndex with
        | Some reorderedItems =>
            Some ({| active := None; isDragging := false; items := reorderedItems |},
                  [reorderedItems])
        | None => None
        end
      else Some ({| active := None; isDragging := false; items := items st |}, [])
  | None => Some ({| active := None; isDragging := false; items := items st |}, [])
  end.

Definition onDragCancel (st : State) : Outcome :=
  ({| active := None; isDragging := false; items := items st |}, []).

(** Move semantics as the specification words them: the item at index
    [i] is removed, then inserted at index [j]. *)
Definition removeAt (i : nat) (l : list T) : list T := firstn i l ++ skipn (S i) l.
Definition insertAt (j : nat) (x : T) (l : list T) : list T :=
  firstn j l ++ x :: skipn j l.
Definition moveItem (i j : nat) (l : list T) : list T :=
  match nth_error l i with
  | Some x => insertAt j x (removeAt i l)
  | None => l
  end.

End Items.

End SortableList.

(** ** Collaborators of PopupCourseBlock.tsx *)

Module Course.

(** The members of the [Status] enum are string constants. *)
Definition Status : Type := string.

(** Of a [Course] the handlers and the status chip read these fields. *)
Record Course : Type := mkCourse {
  uniqueId : Z;
  status : Status
}.

End Course.

Module OptionsStore.

Section Store.
(** The state the listeners' callbacks write to. *)
Context {S : Type}.

Record Listener : Type := mkListener {
  handle : nat;
  key : string;
  callback : bool -> S -> S
}.

Record Store : Type := mkStore {
  listeners : list Listener;
  nextHandle : nat
}.

Definition emptyStore : Store := {| listeners := []; nextHandle := 0 |}.

(** Modelled from the spec: [OptionsStore.listen] is not in the
    repository sources at hand; the specification gives
    subscribe(key, onChange(newValue)) -> listenerHandle.  The handle is
    fresh and the listener is added after those already registered. *)
Definition listen (k : string) (cb : bool -> S -> S) (store : Store) : nat * Store :=
  let h := nextHandle store in
  (h, {| listeners := listeners store ++ [mkListener h k cb];
         nextHandle := Datatypes.S h |}).

(** Modelled from the spec: [OptionsStore.removeListener] is not in the
    repository sources at hand; unsubscribe(handle) drops the listener
    registered under the handle. *)
Definition removeListener (h : nat) (store : Store) : Store :=
  {| listeners := filter (fun l => negb (Nat.eqb (handle l) h)) (listeners store);
     nextHandle := nextHandle store |}.

(** Modelled from the spec: a settings-change notification, delivered to
    the listeners of the key in the order of their registration. *)
Definition notify (k : string) (newValue : bool) (store : Store) (st : S) : S :=
  fold_left (fun acc l => if String.eqb (key l) k then callback l newValue acc else acc)
            (listeners store) st.

Definition subscribedKeys (store : Store) : list string := map key (listeners store).

(** Handles are handed out in increasing order. *)
Definition wellFormed (store : Store) : Prop :=
  Forall (fun l => (handle l < nextHandle store)%nat) (listeners store).

End Store.

End OptionsStore.

(** An [async] handler without local state: a sequence of external calls,
    each either awaited or not. *)
Module Async.

Inductive Action : Type :=
| SwitchToCalendarTab (uniqueId : Z)
| WindowClose.

Inductive Handler : Type :=
| Return
| Perform (a : Action) (k : Handler)
| Await (a : Action) (k : Handler).

(** How the promise of an awaited call ends. *)
Inductive Settlement : Type := Resolves | Rejects | StaysPending.

Inductive Event : Type :=
| Called (a : Action)
| Resolved (a : Action)
| Rejected (a : Action)
| UnhandledRejection.

(** The events of one invocation, in order; [settlements] says how the
    awaited promises end, a missing entry standing for a promise that
    never settles.  The code after an [await] runs when the promise
    resolves; a rejection ends the handler. *)
Fixpoint trace (h : Handler) (settlements : list Settlement) : list Event :=
  match h with
  | Return => []
  | Perform a k => Called a :: trace k settlements
  | Await a k =>
      match settlements with
      | Resolves :: rest => Called a :: Resolved a :: trace k rest
      | Rejects :: _ => [Called a; Rejected a; UnhandledRejection]
      | StaysPending :: _ | [] => [Called a]
      end
  end.

End Async.

(** ** PopupCourseBlock.tsx *)

Module PopupCourseBlock.
Import Course.

(** The hooks of the component ([useState], [useRef]) and what its
    handlers have asked of the browser so far. *)
Record State : Type := mkState {
  enableCourseStatusChips : bool;
  enableTimeAndLocationInPopup : bool;
  isCopied : bool;
  lastCopyTime : Z;
  (** texts passed to [navigator.clipboard.writeText], oldest first *)
  clipboard : list string;
  (** [writeText] promises not settled yet *)
  pendingWrites : nat;
  (** times at which the pending [setTimeout] callbacks are due *)
  timeouts : list Z;
  unhandledRejections : nat
}.

Definition initialState : State :=
  {| enableCourseStatusChips := false; enableTimeAndLocationInPopup := false;
     isCopied := false; lastCopyTime := 0;
     clipboard := []; pendingWrites := 0; timeouts := []; unhandledRejections := 0 |}.

Definition setEnableCourseStatusChips (v : bool) (st : State) : State :=
  {| enableCourseStatusChips := v;
     enableTimeAndLocationInPopup := enableTimeAndLocationInPopup st;
     isCopied := isCopied st; lastCopyTime := lastCopyTime st;
     clipboard := clipboard st; pendingWrites := pendingWrites st;
     timeouts := timeouts st; unhandledRejections := unhandledRejections st |}.

Definition setEnableTimeAndLocationInPopup (v : bool) (st : State) : State :=
  {| enableCourseStatusChips := enableCourseStatusChips st;
     enableTimeAndLocationInPopup := v;
     isCopied := isCopied st; lastCopyTime := lastCopyTime st;
     clipboard := clipboard st; pendingWrites := pendingWrites st;
     timeouts := timeouts st; unhandledRejections := unhandledRejections st |}.

(** The continuation of [initAllSettings] after [await initSettings()]. *)
Definition initAllSettings (chips timeAndLocation : bool) (st : State) : State :=
  setEnableTimeAndLocationInPopup timeAndLocation (setEnableCourseStatusChips chips st).

(** The effect run on mount: the two [OptionsStore.listen] calls; the
    handles [(l1, l2)] are kept for the cleanup. *)
Definition mount (store : OptionsStore.Store) : (nat * nat) * OptionsStore.Store :=
  let (l1, store1) :=
    OptionsStore.listen "enableCourseStatusChips" setEnableCourseStatusChips store in
  let (l2, store2) :=
    OptionsStore.listen "enableTimeAndLocationInPopup" setEnableTimeAndLocationInPopup store1 in
  ((l1, l2), store2).

(** The cleanup of the effect, run on unmount. *)
Definition unmount (ls : nat * nat) (store : OptionsStore.Store (S := State))
  : OptionsStore.Store :=
  let (l1, l2) := ls in
  OptionsStore.removeListener l2 (OptionsStore.removeListener l1 store).

(** [String.prototype.padStart(targetLength, "0")]. *)
Definition padStart (targetLength : nat) (s : string) : string :=
  String.concat EmptyString (repeat "0"%string (targetLength - String.length s)) ++ s.

(** [course.uniqueId.toString().padStart(5, '0')]. *)
Definition formattedUniqueId (course : Course) : string :=
  padStart 5 (DecimalString.NilZero.string_of_int (Z.to_int (uniqueId course))).

Definition handleClick (course : Course) : Async.Handler :=
  Async.Await (Async.SwitchToCalendarTab (uniqueId course))
    (Async.Perform Async.WindowClose Async.Return).

(** [handleCopy] up to its [await], [now] being what [Date.now()] returns:
    the guard, the time stamp and the [writeText] call. *)
Definition handleCopy (course : Course) (now : Z) (st : State) : State :=
  if now - lastCopyTime st <? 500 then st
  else
    {| enableCourseStatusChips := enableCourseStatusChips st;
       enableTimeAndLocationInPopup := enableTimeAndLocationInPopup st;
       isCopied := isCopied st;
       lastCopyTime := now;
       clipboard := clipboard st ++ [formattedUniqueId course];
       pendingWrites := Datatypes.S (pendingWrites st);
       timeouts := timeouts st;
       unhandledRejections := unhandledRejections st |}.

(** [handleCopy] after its [await], run when the write resolves at time
    [at_]: [setIsCopied(true)] and [setTimeout(..., 500)]. *)
Definition writeResolved (at_ : Z) (st : State) : State :=
  match pendingWrites st with
  | O => st
  | Datatypes.S n =>
      {| enableCourseStatusChips := enableCourseStatusChips st;
         enableTimeAndLocationInPopup := enableTimeAndLocationInPopup st;
         isCopied := true;
         lastCopyTime := lastCopyTime st;
         clipboard := clipboard st;
         pendingWrites := n;
         timeouts := timeouts st ++ [at_ + 500];
         unhandledRejections := unhandledRejections st |}
  end.

(** The write rejects: nothing catches it, the rest of [handleCopy] does
    not run. *)
Definition writeRejected (st : State) : State :=
  match pendingWrites st with
  | O => st
  | Datatypes.S n =>
      {| enableCourseStatusChips := enableCourseStatusChips st;
         enableTimeAndLocationInPopup := enableTimeAndLocationInPopup st;
         isCopied := isCopied st;
         lastCopyTime := lastCopyTime st;
         clipboard := clipboard st;
         pendingWrites := n;
         timeouts := timeouts st;
         unhandledRejections := Datatypes.S (unhandledRejections st) |}
  end.

(** Time passes up to [t]: every timeout due by then runs its callback
    [() => setIsCopied(false)]. *)
Definition advance (t : Z) (st : State) : State :=
  if existsb (fun due => due <=? t) (timeouts st) then
    {| enableCourseStatusChips := enableCourseStatusChips st;
       enableTimeAndLocationInPopup := enableTimeAndLocationInPopup st;
       isCopied := false;
       lastCopyTime := lastCopyTime st;
       clipboard := clipboard st;
       pendingWrites := pendingWrites st;
       timeouts := filter (fun due => t <? due) (timeouts st);
       unhandledRejections := unhandledRejections st |}
  else st.

(** What happens to the copy control, with the time at which it does. *)
Inductive Event : Type :=
| Copy (now : Z)
| WriteResolved (at_ : Z)
| WriteRejected (at_ : Z).

Definition timeOf (ev : Event) : Z :=
  match ev with Copy t | WriteResolved t | WriteRejected t => t end.

Definition step (course : Course) (st : State) (ev : Event) : State :=
  let st := advance (timeOf ev) st in
  match ev with
  | Copy now => handleCopy course now st
  | WriteResolved at_ => writeResolved at_ st
  | WriteRejected _ => writeRejected st
  end.

Definition run (course : Course) (evs : list Event) (st : State) : State :=
  fold_left (step course) evs st.

(** An event that is not a copy passing the guard set at [t0]: a write
    settling, or an invocation less than 500 ms after [t0]. *)
Definition notAccepted (t0 : Z) (ev : Event) : Prop :=
  match ev with
  | Copy now => now - t0 < 500
  | WriteResolved _ | WriteRejected _ => True
  end.

(** The [copied] indicator as seen at time [t]. *)
Definition copiedAt (t : Z) (st : State) : bool := isCopied (advance t st).

(** The claim on the indicator, for a write that resolves at time [t] in
    state [st]: the indicator is on from [t] on and for 500 ms, and off
    at [t + 500]. *)
Definition copiedFor500ms (st : State) (t : Z) : Prop :=
  let st' := writeResolved t (advance t st) in
  (forall u, t <= u < t + 500 -> copiedAt u st' = true)
  /\ copiedAt (t + 500) st' = false.

Inductive Element : Type :=
| DragHandle
| Title
| TimeAndLocation
| StatusChip (s : Status)
| CopyButton (copied : bool) (text : string).

Section Render.
(** [Status.OPEN]. *)
Variable OPEN : Status.

(** The children of the block, in document order; [c && <div/>] renders
    the element when [c] is true and nothing otherwise. *)
Definition render (course : Course) (st : State) : list Element :=
  [DragHandle; Title]
  ++ (if enableTimeAndLocationInPopup st then [TimeAndLocation] else [])
  ++ (if enableCourseStatusChips st && negb (String.eqb (status course) OPEN)
      then [StatusChip (status course)] else [])
  ++ [CopyButton (isCopied st) (formattedUniqueId course)].
End Render.

End PopupCourseBlock.

(** The variant of PopupCourseBlock.tsx that takes [dragHandleProps]. *)
Module PopupCourseBlockDragHandle.
Import Course.

Record State : Type := mkState { enableCourseStatusChips : bool }.

Definition initialState : State := {| enableCourseStatusChips := false |}.

Definition setEnableCourseStatusChips (v : bool) (st : State) : State :=
  {| enableCourseStatusChips := v |}.

Definition mount (store : OptionsStore.Store) : nat * OptionsStore.Store :=
  OptionsStore.listen "enableCourseStatusChips" setEnableCourseStatusChips store.

Definition unmount (l1 : nat) (store : OptionsStore.Store (S := State))
  : OptionsStore.Store :=
  OptionsStore.removeListener l1 store.

Definition handleClick (course : Course) : Async.Handler :=
  Async.Await (Async.SwitchToCalendarTab (uniqueId course))
    (Async.Perform Async.WindowClose Async.Return).

Inductive Element : Type :=
| DragHandle
| Title
| StatusChip (s : Status).

Section Render.
Variable OPEN : Status.

Definition render (course : Course) (st : State) : list Element :=
  [DragHandle; Title]
  ++ (if enableCourseStatusChips st && negb (String.eqb (status course) OPEN)
      then [StatusChip (status course)] else []).
End Render.

End PopupCourseBlockDragHandle.

(** ** Further parts of the components *)

(** The texts of the header's action buttons. *)
Module CalendarHeaderLabels.
Import CalendarHeader.

(** The texts rendered in the buttons, in document order: each button has
    [{isDisplaying...ActionsText && <Text variant='small'>...</Text>}]. *)
Definition buttonTexts (st : DisplayingText) : list string :=
  (if isDisplayingPrimaryActionsText st
   then ["Quick Add"; "Add Block"; "Export"]%string else [])
  ++ (if isDisplayingSecondaryActionsText st
      then ["Bookmarks"; "UT Map"]%string else []).

(** The same width observed [n] times in a row. *)
Fixpoint resizeSteps (n : nat) (st : DisplayingText) (width : Z) : DisplayingText :=
  match n with
  | O => st
  | S n' => resizeSteps n' (resizeStep st width) width
  end.

End CalendarHeaderLabels.

(** A drag session of the sortable list: the events the handlers of
    [DndContext] and the [useEffect] on [draggables] react to. *)
Module SortableListSession.
Import SortableList.

Section Session.
Context {T : Type}.
Variable id : T -> UniqueIdentifier.

Inductive DragEvent : Type :=
| DragStart (a : Active)
| DragEnd (a : Active) (over : option Over)
| DragCancel
| DraggablesChanged (draggables : list T).

Definition handleEvent (ev : DragEvent) (st : State) : option Outcome :=
  match ev with
  | DragStart a => Some (onDragStart a st)
  | DragEnd a over => onDragEnd id a over st
  | DragCancel => Some (onDragCancel st)
  | DraggablesChanged draggables => Some (syncDraggables draggables st)
  end.

(** The state after the events and every [onChange] call made, oldest
    first. *)
Fixpoint session (evs : list DragEvent) (st : State) (calls : list (list T))
  : option (State * list (list T)) :=
  match evs with
  | [] => Some (st, calls)
  | ev :: rest =>
      match handleEvent ev st with
      | Some (st', new) => session rest st' (calls ++ new)
      | None => None
      end
  end.

Definition isDraggablesChanged (ev : DragEvent) : bool :=
  match ev with
  | DraggablesChanged _ => true
  | _ => false
  end.

End Session.

End SortableListSession.

(** The mount effect of the course block beyond its listeners. *)
Module PopupCourseBlockEffects.

(** The callbacks handed to [requestAnimationFrame] by the mount effect:
    one that calls [requestAnimationFrame] again, or the innermost one,
    which adds the transition class. *)
Inductive FrameCallback : Type :=
| AddTransitionClass
| RequestAnimationFrame (cb : FrameCallback).

Record Frames : Type := mkFrames {
  (** the callback waiting for the next animation frame *)
  queued : option FrameCallback;
  (** [ref.current.classList], as far as the effect adds to it *)
  classList : list string
}.

(** The [requestAnimationFrame] call of the effect itself. *)
Definition mountFrames : Frames :=
  {| queued := Some (RequestAnimationFrame (RequestAnimationFrame AddTransitionClass));
     classList := [] |}.

(** One animation frame; [attached] says whether [ref.current] is set
    when the callback runs. *)
Definition animationFrame (f : Frames) (attached : bool) : Frames :=
  match queued f with
  | None => f
  | Some (RequestAnimationFrame cb) => {| queued := Some cb; classList := classList f |}
  | Some AddTransitionClass =>
      {| queued := None;
         classList := if attached then classList f ++ ["transition-shadow-100"%string]
                      else classList f |}
  end.

Definition animationFrames (f : Frames) (attached : list bool) : Frames :=
  fold_left animationFrame attached f.

(** Every invocation of the copy control among the events happens between
    [a] and [b]. *)
Definition copiesWithin (a b : Z) (evs : list PopupCourseBlock.Event) : Prop :=
  Forall (fun ev => match ev with
                    | PopupCourseBlock.Copy now => a <= now <= b
                    | _ => True
                    end) evs.

(** [n] mount cycles of the block on a store: mount, then unmount. *)
Fixpoint mountCycles (n : nat) (store : OptionsStore.Store (S := PopupCourseBlock.State))
  : OptionsStore.Store :=
  match n with
  | O => store
  | S n' =>
      mountCycles n'
        (PopupCourseBlock.unmount (fst (PopupCourseBlock.mount store))
           (snd (PopupCourseBlock.mount store)))
  end.

End PopupCourseBlockEffects.

(* ================================================================== *)
(** * Part II: properties *)
(* ================================================================== *)

Section CalendarHeaderFacts.
Import CalendarHeader.

Lemma resizeStep_sound (st : DisplayingText) (w : Z) :
  SpecTransition st w (resizeStep st w).
Proof.
  unfold resizeStep, transition,
    SECONDARY_ACTIONS_WITH_TEXT_WIDTH, PRIMARY_ACTION_WITH_TEXT_WIDTH,
    PRIMARY_ACTION_WITHOUT_TEXT_WIDTH.
  destruct st as [p s]; cbn [isDisplayingPrimaryActionsText isDisplayingSecondaryActionsText].
  destruct (Z.ltb_spec w 274) as [Hlt | Hge];
    destruct (Z.geb_spec (w - 274) (405 - 160)) as [H2 | H2];
    destruct (Z.geb_spec w 274) as [H4 | H4];
    destruct p, s; cbn [andb negb commit]; try lia.
  all: first
    [ apply SpecRule1; unfold rule1; split; [reflexivity | lia]
    | apply SpecRule2; unfold rule1, rule2; cbn; [intros [E ?]; try discriminate; lia | split; [reflexivity | lia]]
    | apply SpecRule3; unfold rule1, rule2, rule3; cbn;
        [intros [E ?]; try discriminate; lia | intros [? ?]; try discriminate; lia | split; [reflexivity | lia]]
    | apply SpecRule4; unfold rule1, rule2, rule3, rule4; cbn;
        [intros [E ?]; try discriminate; lia | intros [? ?]; try discriminate; lia
        | intros [? ?]; try discriminate; lia | split; [reflexivity | lia]]
    | apply SpecNoRule; unfold rule1, rule2, rule3, rule4; cbn;
        intros [? ?]; try discriminate; lia ].
Qed.

Lemma SpecTransition_deterministic (st : DisplayingText) (w : Z) (a b : DisplayingText) :
  SpecTransition st w a -> SpecTransition st w b -> a = b.
Proof.
  intros Ha Hb; destruct Ha, Hb; try reflexivity; contradiction.
Qed.

(** C1: for every header state, in particular the three display modes, and
    every width, the state after the resize step is the one that the four
    rules of the specification, taken in order with the first match
    winning, lead to, and it is the current state when none applies. *)
Theorem C1_resizeStep_follows_rules (st : DisplayingText) (w : Z) (st' : DisplayingText) :
  SpecTransition st w st' <-> resizeStep st w = st'.
Proof.
  split.
  - intros H. eapply SpecTransition_deterministic; [apply resizeStep_sound | exact H].
  - intros <-. apply resizeStep_sound.
Qed.

Lemma transition_payload (st : DisplayingText) (w : Z) (st' : DisplayingText) :
  transition st w = Some st' -> In st' displayModes.
Proof.
  unfold transition.
  repeat match goal with
         | |- context [if ?c then _ else _] => destruct c
         end; intros H; inversion H; subst; cbn; auto.
Qed.

Lemma observe_displayModes (st : DisplayingText) (entries : list ResizeObserverEntry) :
  In st displayModes -> In (observe st entries) displayModes.
Proof.
  intros Hst. unfold observe, resizeObserverCallback.
  destruct entries as [| entry rest]; [exact Hst |].
  destruct (transition st (Math_round (contentRect_width entry))) as [st' |] eqn:E.
  - cbn. eapply transition_payload; exact E.
  - exact Hst.
Qed.

Lemma history_displayModes (obs : list (list ResizeObserverEntry)) :
  forall st, In st displayModes ->
    Forall (fun st' => In st' displayModes) (history st obs).
Proof.
  induction obs as [| entries rest IH]; intros st Hst; cbn.
  - constructor.
  - constructor.
    + apply observe_displayModes; exact Hst.
    + apply IH. apply observe_displayModes; exact Hst.
Qed.

(** C2: from the initial state (true, true), whatever the sequence of
    resize observations, every state the header goes through is one of
    (true, true), (false, true), (false, false); (true, false) is never
    among them. *)
Theorem C2_true_false_unreachable (obs : list (list ResizeObserverEntry)) :
  Forall (fun st => In st displayModes) (history initialDisplayingText obs)
  /\ ~ In (mkDisplayingText true false) (history initialDisplayingText obs).
Proof.
  assert (H : Forall (fun st => In st displayModes) (history initialDisplayingText obs)).
  { apply history_displayModes. cbn. auto. }
  split; [exact H |].
  intros Hin. rewrite Forall_forall in H. specialize (H _ Hin).
  cbn in H. intuition discriminate.
Qed.

Lemma Math_round_nearest (x : Q) :
  (inject_Z (Math_round x) - (1 # 2) <= x)%Q /\ (x < inject_Z (Math_round x) + (1 # 2))%Q.
Proof.
  unfold Math_round.
  pose proof (Qfloor_le (x + (1 # 2))) as Hlo.
  pose proof (Qlt_floor (x + (1 # 2))) as Hhi.
  rewrite inject_Z_plus in Hhi.
  split.
  - apply Qplus_le_l with (z := 1 # 2). ring_simplify. ring_simplify in Hlo. exact Hlo.
  - apply Qplus_lt_l with (z := 1 # 2).
    eapply Qlt_le_trans; [exact Hhi |].
    ring_simplify. apply Qle_refl.
Qed.

(** C10: the callback rounds the measured width to the nearest integer
    (a tie going up) before it applies the rules, so two measurements with
    the same rounded width lead to the same state; a measured 273.5 counts
    as 274, which is not below the threshold 274. *)
Theorem C10_width_is_rounded (st : DisplayingText)
    (e e' : ResizeObserverEntry) (rest rest' : list ResizeObserverEntry)
    (Hround : Math_round (contentRect_width e) = Math_round (contentRect_width e')) :
  observe st (e :: rest) = resizeStep st (Math_round (contentRect_width e))
  /\ observe st (e :: rest) = observe st (e' :: rest')
  /\ ((inject_Z (Math_round (contentRect_width e)) - (1 # 2) <= contentRect_width e)%Q
      /\ (contentRect_width e < inject_Z (Math_round (contentRect_width e)) + (1 # 2))%Q)
  /\ Math_round (2735 # 10) = 274
  /\ observe st [mkEntry (2735 # 10)] = resizeStep st 274
  /\ (274 <? SECONDARY_ACTIONS_WITH_TEXT_WIDTH) = false.
Proof.
  repeat split.
  - unfold observe, resizeObserverCallback. rewrite Hround. reflexivity.
  - apply Math_round_nearest.
  - apply Math_round_nearest.
Qed.

Lemma C10_width_is_rounded_witness :
  Math_round (2735 # 10) = Math_round (2742 # 10)
  /\ observe (mkDisplayingText false false) [mkEntry (2735 # 10)]
     = observe (mkDisplayingText false false) [mkEntry (2742 # 10)].
Proof.
  split; [reflexivity |].
  apply (C10_width_is_rounded (mkDisplayingText false false)
           (mkEntry (2735 # 10)) (mkEntry (2742 # 10)) [] []).
  reflexivity.
Defined.

Example header_widths_of_the_specification :
  history initialDisplayingText
    (map (fun w => [mkEntry (inject_Z w)]) [300; 200; 450; 150; 280])
  = [ mkDisplayingText true true; mkDisplayingText false true;
      mkDisplayingText false true; mkDisplayingText false false;
      mkDisplayingText false true ].
Proof. reflexivity. Qed.

End CalendarHeaderFacts.

Section SortableListFacts.
Import SortableList.
Context {T : Type}.
Variable id : T -> UniqueIdentifier.

Lemma strict_eq_true_iff (a b : UniqueIdentifier) : strict_eq a b = true <-> a = b.
Proof.
  destruct a as [s | n], b as [t | m]; cbn.
  - rewrite String.eqb_eq. split; congruence.
  - split; discriminate.
  - split; discriminate.
  - rewrite Z.eqb_eq. split; congruence.
Qed.

Lemma strict_eq_refl (a : UniqueIdentifier) : strict_eq a a = true.
Proof. apply strict_eq_true_iff. reflexivity. Qed.

Lemma findIndexFrom_unique (l : list T) :
  forall (i : nat) (x : T) (k : Z),
    NoDup (map id l) -> nth_error l i = Some x ->
    findIndexFrom (fun item => strict_eq (id item) (id x)) l k = k + Z.of_nat i.
Proof.
  induction l as [| y rest IH]; intros i x k Hnd Hnth.
  - destruct i; discriminate.
  - destruct i as [| i]; cbn in Hnth |- *.
    + inversion Hnth; subst. rewrite strict_eq_refl. lia.
    + inversion Hnd as [| ? ? Hnotin Hnd']; subst.
      destruct (strict_eq (id y) (id x)) eqn:E.
      * apply strict_eq_true_iff in E. exfalso. apply Hnotin.
        rewrite E. apply in_map. eapply nth_error_In; exact Hnth.
      * rewrite (IH i x (k + 1) Hnd' Hnth). lia.
Qed.

Lemma findIndex_unique (l : list T) (i : nat) (x : T) :
  NoDup (map id l) -> nth_error l i = Some x ->
  findIndex (fun item => strict_eq (id item) (id x)) l = Z.of_nat i.
Proof.
  intros Hnd Hnth. unfold findIndex.
  rewrite (findIndexFrom_unique l i x 0 Hnd Hnth). lia.
Qed.

Lemma spliceStart_inside (len i : nat) :
  (i <= len)%nat -> spliceStart len (Z.of_nat i) = i.
Proof.
  intros Hle. unfold spliceStart.
  destruct (Z.ltb_spec (Z.of_nat i) 0); lia.
Qed.

Lemma removeAt_length (l : list T) (i : nat) :
  (i < List.length l)%nat -> List.length (removeAt i l) = (List.length l - 1)%nat.
Proof.
  intros Hlt. unfold removeAt.
  rewrite length_app, length_firstn, length_skipn. lia.
Qed.

Lemma arrayMove_moveItem (l : list T) (i j : nat) :
  (i < List.length l)%nat -> (j < List.length l)%nat ->
  arrayMove l (Z.of_nat i) (Z.of_nat j) = Some (moveItem i j l).
Proof.
  intros Hi Hj. unfold arrayMove, spliceOut, spliceIn, moveItem.
  destruct (Z.ltb_spec (Z.of_nat j) 0) as [Hneg | _]; [lia |].
  rewrite (spliceStart_inside (List.length l) i) by lia.
  destruct (nth_error l i) as [x |] eqn:E.
  - fold (removeAt i l). rewrite (removeAt_length l i Hi).
    rewrite spliceStart_inside by lia. reflexivity.
  - apply nth_error_None in E. lia.
Qed.

Lemma removeAt_insertAt (l : list T) (j : nat) (x : T) :
  (j <= List.length l)%nat -> removeAt j (insertAt j x l) = l.
Proof.
  intros Hj. unfold removeAt, insertAt.
  assert (Hlen : List.length (firstn j l) = j) by (rewrite length_firstn; lia).
  rewrite firstn_app, Hlen, Nat.sub_diag, firstn_O, app_nil_r.
  rewrite firstn_all2 by lia.
  rewrite skipn_app, Hlen.
  replace (S j - j)%nat with 1%nat by lia.
  rewrite (skipn_all2 (n := S j)) by lia.
  cbn. apply firstn_skipn.
Qed.

Lemma insertAt_nth (l : list T) (j : nat) (x : T) :
  (j <= List.length l)%nat -> nth_error (insertAt j x l) j = Some x.
Proof.
  intros Hj. unfold insertAt.
  assert (Hlen : List.length (firstn j l) = j) by (rewrite length_firstn; lia).
  rewrite nth_error_app2 by lia. rewrite Hlen, Nat.sub_diag. reflexivity.
Qed.

Lemma removeAt_Permutation (l : list T) (i : nat) (x : T) :
  nth_error l i = Some x -> Permutation l (x :: removeAt i l).
Proof.
  intros Hnth. unfold removeAt.
  destruct (nth_error_split l i Hnth) as (l1 & l2 & -> & Hlen).
  subst i.
  rewrite firstn_app, Nat.sub_diag, firstn_O, app_nil_r, firstn_all.
  rewrite skipn_app, skipn_all2 by lia.
  replace (S (List.length l1) - List.length l1)%nat with 1%nat by lia.
  cbn. symmetry. apply Permutation_middle.
Qed.

Lemma insertAt_Permutation (l : list T) (j : nat) (x : T) :
  Permutation (x :: l) (insertAt j x l).
Proof.
  unfold insertAt. rewrite <- (firstn_skipn j l) at 1.
  apply Permutation_middle.
Qed.

(** Moving is a permutation that puts the moved item at the target index
    and keeps the order of all the others. *)
Lemma moveItem_spec (l : list T) (i j : nat) (x : T) :
  nth_error l i = Some x -> (j < List.length l)%nat ->
  nth_error (moveItem i j l) j = Some x
  /\ removeAt j (moveItem i j l) = removeAt i l
  /\ Permutation l (moveItem i j l).
Proof.
  intros Hnth Hj. unfold moveItem. rewrite Hnth.
  assert (Hi : (i < List.length l)%nat) by (apply nth_error_Some; congruence).
  pose proof (removeAt_length l i Hi) as Hlen.
  repeat split.
  - apply insertAt_nth. lia.
  - apply removeAt_insertAt. lia.
  - etransitivity; [apply removeAt_Permutation; exact Hnth |].
    apply insertAt_Permutation.
Qed.

(** C3: in a list of uniquely identified items, a drag that ends over an
    item other than the dragged one, the dragged item being at index [i]
    and the target at index [j], leaves the sequence in which the item at
    [i] has been removed and inserted at [j] (a move, not a swap), and
    [onChange] is called exactly once, with that sequence; a drag that
    ends over no target, or over the dragged item itself, calls
    [onChange] zero times and leaves the sequence as it was. *)
Theorem C3_onDragEnd_moves_item (st : State) (a : Active) :
  (forall (o : Over) (i j : nat) (ai oi : T),
      NoDup (map id (items st)) ->
      nth_error (items st) i = Some ai -> id ai = active_id a ->
      nth_error (items st) j = Some oi -> id oi = over_id o ->
      active_id a <> over_id o ->
      onDragEnd id a (Some o) st
      = Some ({| active := None; isDragging := false;
                 items := insertAt j ai (removeAt i (items st)) |},
              [insertAt j ai (removeAt i (items st))])
      /\ nth_error (insertAt j ai (removeAt i (items st))) j = Some ai
      /\ removeAt j (insertAt j ai (removeAt i (items st))) = removeAt i (items st))
  /\ (forall o : Over, active_id a = over_id o ->
      onDragEnd id a (Some o) st
      = Some ({| active := None; isDragging := false; items := items st |}, []))
  /\ onDragEnd id a None st
     = Some ({| active := None; isDragging := false; items := items st |}, []).
Proof.
  split; [| split].
  - intros o i j ai oi Huniq Hi Hai Hj Hoj Hneq.
    assert (Hilt : (i < List.length (items st))%nat) by (apply nth_error_Some; congruence).
    assert (Hjlt : (j < List.length (items st))%nat) by (apply nth_error_Some; congruence).
    destruct (moveItem_spec (items st) i j ai Hi Hjlt) as (Hat & Hothers & _).
    unfold moveItem in Hat, Hothers. rewrite Hi in Hat, Hothers.
    split; [| split; assumption].
    unfold onDragEnd.
    destruct (strict_eq (active_id a) (over_id o)) eqn:E.
    { apply strict_eq_true_iff in E. contradiction. }
    cbn [negb]. rewrite <- Hai, <- Hoj.
    rewrite (findIndex_unique (items st) i ai Huniq Hi).
    rewrite (findIndex_unique (items st) j oi Huniq Hj).
    rewrite (arrayMove_moveItem (items st) i j Hilt Hjlt).
    unfold moveItem. rewrite Hi. reflexivity.
  - intros o Heq. unfold onDragEnd.
    rewrite Heq, strict_eq_refl. reflexivity.
  - reflexivity.
Qed.

(** Every handler that ends a drag leaves the component idle, and so does
    the initial render: the state before a drag has no active item and is
    not in dragging mode. *)
Lemma idle_before_drag (st : State) (a : Active) (over : option Over)
    (draggables : list T) :
  (active (initialState draggables) = None
   /\ isDragging (initialState draggables) = false)
  /\ (forall out, onDragEnd id a over st = Some out ->
        active (fst out) = None /\ isDragging (fst out) = false)
  /\ (active (fst (onDragCancel st)) = None
      /\ isDragging (fst (onDragCancel st)) = false).
Proof.
  split; [split; reflexivity |]. split; [| split; reflexivity].
  intros out. unfold onDragEnd.
  destruct over as [o |]; [| intros [= <-]; split; reflexivity].
  destruct (negb (strict_eq (active_id a) (over_id o)));
    [| intros [= <-]; split; reflexivity].
  destruct (arrayMove _ _ _); [intros [= <-]; split; reflexivity | discriminate].
Qed.

(** C6: cancelling a drag in progress puts the component back in the
    state it had before the drag started (same sequence, no active item,
    not in dragging mode), and no [onChange] call is made. *)
Theorem C6_onDragCancel_restores (st : @State T) :
  (forall (pre : @State T) (a : Active),
      active pre = None -> isDragging pre = false ->
      st = fst (onDragStart a pre) ->
      onDragCancel st = (pre, []))
  /\ items (fst (onDragCancel st)) = items st
  /\ active (fst (onDragCancel st)) = None
  /\ isDragging (fst (onDragCancel st)) = false
  /\ snd (onDragCancel st) = [].
Proof.
  split; [| repeat split].
  intros [pa pd pi] a Ha Hd ->. cbn in Ha, Hd. subst.
  reflexivity.
Qed.

End SortableListFacts.

Lemma C3_onDragEnd_moves_item_witness :
  let id := SortableList.NumberId in
  let st := SortableList.initialState [10; 20; 30] in
  NoDup (map id (SortableList.items st))
  /\ nth_error (SortableList.items st) 0 = Some 10
  /\ nth_error (SortableList.items st) 2 = Some 30
  /\ SortableList.NumberId 10 <> SortableList.NumberId 30
  /\ SortableList.onDragEnd id (SortableList.mkActive (id 10))
       (Some (SortableList.mkOver (id 30))) st
     = Some (SortableList.mkState None false [20; 30; 10], [[20; 30; 10]]).
Proof.
  intros id st.
  assert (Huniq : NoDup (map id (SortableList.items st))).
  { cbn. repeat constructor; cbn; intuition discriminate. }
  assert (Hneq : SortableList.NumberId 10 <> SortableList.NumberId 30) by discriminate.
  split; [exact Huniq |]. split; [reflexivity |]. split; [reflexivity |].
  split; [exact Hneq |].
  exact (proj1 (proj1 (C3_onDragEnd_moves_item id st (SortableList.mkActive (id 10)))
                  (SortableList.mkOver (id 30)) 0%nat 2%nat 10 30
                  Huniq eq_refl eq_refl eq_refl eq_refl Hneq)).
Defined.

Lemma C6_onDragCancel_restores_witness :
  let pre := SortableList.initialState [10; 20; 30] in
  let a := SortableList.mkActive (SortableList.NumberId 20) in
  SortableList.active pre = None
  /\ SortableList.isDragging pre = false
  /\ SortableList.onDragCancel (fst (SortableList.onDragStart a pre)) = (pre, []).
Proof.
  intros pre a. split; [reflexivity |]. split; [reflexivity |].
  exact (proj1 (C6_onDragCancel_restores (fst (SortableList.onDragStart a pre)))
           pre a eq_refl eq_refl eq_refl).
Defined.

Example move_is_not_swap :
  SortableList.arrayMove ["a"; "b"; "c"; "d"]%string 0 2 = Some ["b"; "c"; "a"; "d"]%string
  /\ SortableList.arrayMove ["a"; "b"; "c"; "d"]%string 3 1 = Some ["a"; "d"; "b"; "c"]%string.
Proof. split; reflexivity. Qed.

Section CopyControlFacts.
Import Course PopupCourseBlock.
Variable course : Course.

Lemma handleCopy_guarded (now : Z) (st : State) :
  now - lastCopyTime st < 500 -> handleCopy course now st = st.
Proof.
  intros Hlt. unfold handleCopy.
  destruct (Z.ltb_spec (now - lastCopyTime st) 500); [reflexivity | lia].
Qed.

Lemma advance_keeps (t : Z) (st : State) :
  lastCopyTime (advance t st) = lastCopyTime st
  /\ clipboard (advance t st) = clipboard st
  /\ pendingWrites (advance t st) = pendingWrites st
  /\ unhandledRejections (advance t st) = unhandledRejections st.
Proof.
  unfold advance. destruct (existsb _ _); repeat split; reflexivity.
Qed.

Lemma step_notAccepted (t0 : Z) (ev : Event) (st : State) :
  notAccepted t0 ev -> lastCopyTime st = t0 ->
  lastCopyTime (step course st ev) = t0
  /\ clipboard (step course st ev) = clipboard st.
Proof.
  intros Hev Hlast. unfold step.
  destruct (advance_keeps (timeOf ev) st) as (Hl & Hc & _).
  destruct ev as [now | at_ | at_]; cbn [notAccepted] in Hev; cbn [timeOf] in *.
  - rewrite handleCopy_guarded by (rewrite Hl, Hlast; exact Hev).
    rewrite Hl, Hc. split; [exact Hlast | reflexivity].
  - unfold writeResolved.
    destruct (pendingWrites _); cbn [lastCopyTime clipboard]; rewrite Hl, Hc; auto.
  - unfold writeRejected.
    destruct (pendingWrites _); cbn [lastCopyTime clipboard]; rewrite Hl, Hc; auto.
Qed.

Lemma run_notAccepted (t0 : Z) (evs : list Event) :
  forall st, Forall (notAccepted t0) evs -> lastCopyTime st = t0 ->
    lastCopyTime (run course evs st) = t0
    /\ clipboard (run course evs st) = clipboard st.
Proof.
  induction evs as [| ev rest IH]; intros st Hall Hlast.
  - split; [exact Hlast | reflexivity].
  - change (run course (ev :: rest) st) with (run course rest (step course st ev)).
    inversion Hall as [| ? ? Hev Hrest]; subst.
    destruct (step_notAccepted _ ev st Hev eq_refl) as [Hl Hc].
    destruct (IH (step course st ev) Hrest Hl) as [Hl' Hc'].
    split; [exact Hl' | rewrite Hc'; exact Hc].
Qed.

(** C4: of two invocations of the copy control, the second coming less
    than 500 ms after the first, which passed the guard, only the first
    writes to the clipboard; the second leaves the whole state as it is:
    no write, nothing pending, no timeout, no rejection.  Whatever happens
    in between (the write settling, timeouts, other guarded invocations)
    does not change that. *)
Theorem C4_second_copy_ignored (st : State) (t0 t1 : Z) (between : list Event)
    (Hfirst : 500 <= t0 - lastCopyTime st)
    (Hbetween : Forall (notAccepted t0) between)
    (Hsecond : t1 - t0 < 500) :
  let st0 := handleCopy course t0 st in
  let st1 := run course between st0 in
  clipboard st0 = clipboard st ++ [formattedUniqueId course]
  /\ clipboard st1 = clipboard st0
  /\ handleCopy course t1 st1 = st1
  /\ clipboard (step course st1 (Copy t1)) = clipboard st0.
Proof.
  intros st0 st1.
  assert (Hst0 : lastCopyTime st0 = t0 /\ clipboard st0 = clipboard st ++ [formattedUniqueId course]).
  { unfold st0, handleCopy.
    destruct (Z.ltb_spec (t0 - lastCopyTime st) 500); [lia | split; reflexivity]. }
  destruct Hst0 as [Hl0 Hc0].
  destruct (run_notAccepted t0 between st0 Hbetween Hl0) as [Hl1 Hc1].
  fold st1 in Hl1, Hc1.
  repeat split.
  - exact Hc0.
  - exact Hc1.
  - apply handleCopy_guarded. rewrite Hl1. exact Hsecond.
  - destruct (step_notAccepted t0 (Copy t1) st1 Hsecond Hl1) as [_ Hc].
    rewrite Hc. exact Hc1.
Qed.

End CopyControlFacts.

Lemma C4_second_copy_ignored_witness :
  let course := Course.mkCourse 1234 "OPEN"%string in
  let st0 := PopupCourseBlock.handleCopy course 1000 PopupCourseBlock.initialState in
  let st1 := PopupCourseBlock.run course [PopupCourseBlock.WriteResolved 1020] st0 in
  500 <= 1000 - PopupCourseBlock.lastCopyTime PopupCourseBlock.initialState
  /\ 1499 - 1000 < 500
  /\ PopupCourseBlock.clipboard st0 = ["01234"%string]
  /\ PopupCourseBlock.handleCopy course 1499 st1 = st1.
Proof.
  intros course st0 st1.
  assert (H1 : 500 <= 1000 - PopupCourseBlock.lastCopyTime PopupCourseBlock.initialState)
    by (cbn; lia).
  assert (H2 : 1499 - 1000 < 500) by lia.
  split; [exact H1 |]. split; [exact H2 |].
  destruct (C4_second_copy_ignored course PopupCourseBlock.initialState 1000 1499
              [PopupCourseBlock.WriteResolved 1020] H1
              (Forall_cons (PopupCourseBlock.WriteResolved 1020) I (Forall_nil _)) H2) as (Ha & _ & Hc & _).
  split; [exact Ha | exact Hc].
Defined.

Section CopiedIndicatorFacts.
Import Course PopupCourseBlock.
Variable course : Course.

Lemma advance_all_due (t : Z) (st : State) :
  Forall (fun due => due <= t) (timeouts st) -> timeouts (advance t st) = [].
Proof.
  intros Hdue. unfold advance.
  assert (Hnone : filter (fun due => t <? due) (timeouts st) = []).
  { induction Hdue as [| due rest Hle _ IH]; [reflexivity |].
    cbn. destruct (Z.ltb_spec t due); [lia | exact IH]. }
  destruct (existsb _ _) eqn:E; cbn [timeouts].
  - exact Hnone.
  - destruct (timeouts st) as [| due rest]; [reflexivity |].
    inversion Hdue; subst. cbn in E.
    destruct (Z.leb_spec due t); [discriminate | lia].
Qed.

(** The state right after the write resolved at [t], when no earlier
    timeout is left: the indicator is on and one timeout is pending. *)
Lemma writeResolved_fresh (t : Z) (st : State) :
  (0 < pendingWrites st)%nat ->
  Forall (fun due => due <= t) (timeouts st) ->
  isCopied (writeResolved t (advance t st)) = true
  /\ timeouts (writeResolved t (advance t st)) = [t + 500]
  /\ lastCopyTime (writeResolved t (advance t st)) = lastCopyTime st.
Proof.
  intros Hpending Hdue.
  pose proof (advance_all_due t st Hdue) as Hnone.
  destruct (advance_keeps t st) as (Hl & _ & Hp & _).
  unfold writeResolved.
  destruct (pendingWrites (advance t st)) as [| n] eqn:E; [lia |].
  cbn [isCopied timeouts lastCopyTime]. rewrite Hnone, Hl. auto.
Qed.

Lemma copiedAt_single (u d : Z) (st : State) :
  isCopied st = true -> timeouts st = [d] -> copiedAt u st = (u <? d).
Proof.
  intros Hc Ht. unfold copiedAt, advance. rewrite Ht. cbn [existsb orb].
  destruct (Z.leb_spec d u); destruct (Z.ltb_spec u d); try lia; cbn.
  - reflexivity.
  - exact Hc.
Qed.

Lemma copiedAt_none (u : Z) (st : State) :
  isCopied st = false -> timeouts st = [] -> copiedAt u st = false.
Proof.
  intros Hc Ht. unfold copiedAt, advance. rewrite Ht. exact Hc.
Qed.

(** Guarded invocations up to time [u] leave the indicator and its one
    timeout alone, apart from the timeout running when it is due. *)
Lemma run_guarded_window (d u lastCopy : Z) (clicks : list Z) :
  forall st,
    Forall (fun now => now <= u /\ now - lastCopy < 500) clicks ->
    lastCopyTime st = lastCopy ->
    (isCopied st = true /\ timeouts st = [d])
    \/ (isCopied st = false /\ timeouts st = [] /\ d <= u) ->
    copiedAt u (run course (map Copy clicks) st) = (u <? d).
Proof.
  induction clicks as [| now rest IH]; intros st Hall Hlast Hinv.
  - cbn [map run fold_left].
    destruct Hinv as [[Hc Ht] | (Hc & Ht & Hle)].
    + apply copiedAt_single; assumption.
    + rewrite (copiedAt_none u st Hc Ht). destruct (Z.ltb_spec u d); [lia | reflexivity].
  - inversion Hall as [| ? ? [Hnow Hguard] Hrest]; subst.
    change (run course (map Copy (now :: rest)) st)
      with (run course (map Copy rest) (step course st (Copy now))).
    assert (Hstep : step course st (Copy now) = advance now st).
    { unfold step. cbn [timeOf]. apply handleCopy_guarded.
      destruct (advance_keeps now st) as (Hl & _). rewrite Hl. exact Hguard. }
    rewrite Hstep.
    apply IH; [exact Hrest | apply advance_keeps |].
    destruct Hinv as [[Hc Ht] | (Hc & Ht & Hle)].
    + unfold advance. rewrite Ht. cbn [existsb orb filter].
      destruct (Z.leb_spec d now); destruct (Z.ltb_spec now d); try lia;
        cbn [isCopied timeouts].
      * right. repeat split; lia.
      * left. split; assumption.
    + right. unfold advance. rewrite Ht. cbn [existsb]. auto.
Qed.

(** C5 (as amended): when the write of a copy resolves at time [t] and no
    timeout of an earlier copy is still pending then, the indicator is on
    from [t] on, off at [t + 500] and not before, and that one timeout is
    the only one pending; invocations stopped by the guard in between
    change nothing of this: seen at any time [u], the indicator is on
    exactly when [u] is less than 500 ms after [t]. *)
Theorem C5_copied_window (st : State) (t u : Z) (clicks : list Z)
    (Hpending : (0 < pendingWrites st)%nat)
    (Hearlier : Forall (fun due => due < t) (timeouts st))
    (Hclicks : Forall (fun now => now <= u /\ now - lastCopyTime st < 500) clicks)
    (Htime : t <= u) :
  let st' := writeResolved t (advance t st) in
  isCopied st' = true
  /\ timeouts st' = [t + 500]
  /\ copiedFor500ms st t
  /\ run course (map Copy clicks) st' = fold_left (fun s now => advance now s) clicks st'
  /\ copiedAt u (run course (map Copy clicks) st') = (u <? t + 500).
Proof.
  intros st'.
  assert (Hdue : Forall (fun due => due <= t) (timeouts st)).
  { eapply Forall_impl; [| exact Hearlier]. cbn. intros due Hlt. lia. }
  destruct (writeResolved_fresh t st Hpending Hdue) as (Hc & Ht & Hl).
  fold st' in Hc, Ht, Hl.
  split; [exact Hc |]. split; [exact Ht |]. split; [| split].
  - unfold copiedFor500ms. fold st'. split.
    + intros v Hv. rewrite (copiedAt_single v (t + 500) st' Hc Ht).
      destruct (Z.ltb_spec v (t + 500)); [reflexivity | lia].
    + rewrite (copiedAt_single (t + 500) (t + 500) st' Hc Ht).
      apply Z.ltb_irrefl.
  - clear Hc Ht. revert Hl. generalize st'. clear st'.
    induction Hclicks as [| now rest [_ Hguard] _ IH]; intros s Hl; [reflexivity |].
    change (run course (map Copy (now :: rest)) s)
      with (run course (map Copy rest) (step course s (Copy now))).
    cbn [fold_left].
    assert (Hstep : step course s (Copy now) = advance now s).
    { unfold step. cbn [timeOf]. apply handleCopy_guarded.
      destruct (advance_keeps now s) as (Hl' & _). rewrite Hl', Hl. exact Hguard. }
    rewrite Hstep. apply IH.
    destruct (advance_keeps now s) as (Hl' & _). rewrite Hl'. exact Hl.
  - apply (run_guarded_window (t + 500) u (lastCopyTime st)); auto.
Qed.

End CopiedIndicatorFacts.

(** C5 (as stated) fails when a copy is accepted while the timeout of the
    copy before is still pending: a copy at 1000 whose write resolves at
    1020, then a copy at 1500, past the guard, whose write resolves at 1505.
    The timeout of the first runs at 1520 and turns the indicator off 15 ms
    after the second copy succeeded. *)
Lemma C5_counterexample_overlapping_copies :
  let course := Course.mkCourse 1234 "OPEN"%string in
  let st := PopupCourseBlock.run course
              [PopupCourseBlock.Copy 1000; PopupCourseBlock.WriteResolved 1020;
               PopupCourseBlock.Copy 1500] PopupCourseBlock.initialState in
  PopupCourseBlock.clipboard st = ["01234"; "01234"]%string
  /\ PopupCourseBlock.pendingWrites st = 1%nat
  /\ PopupCourseBlock.isCopied
       (PopupCourseBlock.step course st (PopupCourseBlock.WriteResolved 1505)) = true
  /\ PopupCourseBlock.copiedAt 1520
       (PopupCourseBlock.step course st (PopupCourseBlock.WriteResolved 1505)) = false
  /\ ~ PopupCourseBlock.copiedFor500ms st 1505.
Proof.
  intros course st.
  split; [reflexivity |]. split; [reflexivity |].
  split; [reflexivity |]. split; [reflexivity |].
  intros [Hwindow _].
  specialize (Hwindow 1520 ltac:(lia)).
  vm_compute in Hwindow. discriminate Hwindow.
Qed.

Lemma C5_copied_window_witness :
  let course := Course.mkCourse 1234 "OPEN"%string in
  let st := PopupCourseBlock.run course [PopupCourseBlock.Copy 1000]
              PopupCourseBlock.initialState in
  (0 < PopupCourseBlock.pendingWrites st)%nat
  /\ Forall (fun due => due < 1020) (PopupCourseBlock.timeouts st)
  /\ Forall (fun now => now <= 1400 /\ now - PopupCourseBlock.lastCopyTime st < 500)
       [1100; 1300]
  /\ 1020 <= 1400
  /\ PopupCourseBlock.copiedFor500ms st 1020
  /\ PopupCourseBlock.copiedAt 1400
       (PopupCourseBlock.run course (map PopupCourseBlock.Copy [1100; 1300])
          (PopupCourseBlock.writeResolved 1020 (PopupCourseBlock.advance 1020 st)))
     = true.
Proof.
  intros course st.
  assert (H1 : (0 < PopupCourseBlock.pendingWrites st)%nat) by (cbn; lia).
  assert (H2 : Forall (fun due => due < 1020) (PopupCourseBlock.timeouts st))
    by (cbn; constructor).
  assert (H3 : Forall (fun now => now <= 1400 /\ now - PopupCourseBlock.lastCopyTime st < 500)
                 [1100; 1300]).
  { repeat constructor; cbn; lia. }
  assert (H4 : 1020 <= 1400) by lia.
  destruct (C5_copied_window course st 1020 1400 [1100; 1300] H1 H2 H3 H4)
    as (_ & _ & Hwindow & _ & Hseen).
  repeat (split; [assumption |]). exact Hseen.
Defined.

Section OptionsStoreFacts.
Import OptionsStore.
Context {S : Type}.

Lemma filter_other_handles (ls : list (@Listener S)) (bound h : nat) :
  Forall (fun l => (handle l < bound)%nat) ls -> (bound <= h)%nat ->
  filter (fun l => negb (Nat.eqb (handle l) h)) ls = ls.
Proof.
  intros Hall Hle. induction Hall as [| l rest Hl _ IH]; [reflexivity |].
  cbn. destruct (Nat.eqb_spec (handle l) h); [lia |].
  cbn. rewrite IH. reflexivity.
Qed.

(** Removing the listener that was registered last gives back the
    listeners there were before. *)
Lemma removeListener_listen (store : @Store S) (k : string) (cb : bool -> S -> S) :
  wellFormed store ->
  listeners (removeListener (fst (listen k cb store)) (snd (listen k cb store)))
  = listeners store.
Proof.
  intros Hwf. unfold removeListener, listen.
  cbn [fst snd listeners nextHandle]. rewrite filter_app.
  cbn [filter handle].
  destruct (Nat.eqb_spec (nextHandle store) (nextHandle store)) as [_ | Hne];
    [| contradiction].
  cbn [negb]. rewrite app_nil_r.
  apply (filter_other_handles _ (nextHandle store)); [exact Hwf | lia].
Qed.

Lemma listen_wellFormed (store : @Store S) (k : string) (cb : bool -> S -> S) :
  wellFormed store -> wellFormed (snd (listen k cb store)).
Proof.
  intros Hwf. unfold wellFormed in *. cbn.
  apply Forall_app. split.
  - eapply Forall_impl; [| exact Hwf]. cbn. intros l Hl. lia.
  - constructor; [cbn; lia | constructor].
Qed.

Lemma notify_listeners (k : string) (v : bool) (a b : @Store S) (st : S) :
  listeners a = listeners b -> notify k v a st = notify k v b st.
Proof. intros H. unfold notify. rewrite H. reflexivity. Qed.

End OptionsStoreFacts.

Section SettingsSubscriptionFacts.
Import OptionsStore.

Lemma PopupCourseBlock_unmount_mount (store : @Store PopupCourseBlock.State) :
  wellFormed store ->
  listeners (PopupCourseBlock.unmount (fst (PopupCourseBlock.mount store))
               (snd (PopupCourseBlock.mount store)))
  = listeners store.
Proof.
  intros Hwf.
  unfold PopupCourseBlock.unmount, PopupCourseBlock.mount, removeListener, listen.
  cbn [fst snd listeners nextHandle]. rewrite !filter_app.
  cbn [filter handle].
  destruct (Nat.eqb_spec (nextHandle store) (nextHandle store)) as [_ | Hne];
    [| contradiction].
  destruct (Nat.eqb_spec (Datatypes.S (nextHandle store)) (nextHandle store)); [lia |].
  cbn [negb filter handle app].
  destruct (Nat.eqb_spec (Datatypes.S (nextHandle store)) (Datatypes.S (nextHandle store)))
    as [_ | Hne]; [| contradiction].
  cbn [negb]. rewrite app_nil_r.
  rewrite (filter_other_handles _ (nextHandle store) (nextHandle store) Hwf) by lia.
  rewrite ?app_nil_r.
  apply (filter_other_handles _ (nextHandle store)); [exact Hwf | lia].
Qed.

(** C7 (as amended): on mount the block subscribes to both display
    settings and its drag-handle variant to enableCourseStatusChips alone;
    a change notification of a subscribed setting updates the local state;
    on unmount each removes exactly the listeners it registered, so the
    store is left with the listeners it had before the mount, and a
    notification after the unmount does to the state what it would have
    done had the component never been mounted: nothing, when no other
    listener is registered. *)
Theorem C7_subscription_lifecycle
    (store : @Store PopupCourseBlock.State)
    (store' : @Store PopupCourseBlockDragHandle.State)
    (Hwf : wellFormed store) (Hwf' : wellFormed store') :
  let mounted := snd (PopupCourseBlock.mount store) in
  let unmounted := PopupCourseBlock.unmount (fst (PopupCourseBlock.mount store)) mounted in
  let mounted' := snd (PopupCourseBlockDragHandle.mount store') in
  let unmounted' :=
    PopupCourseBlockDragHandle.unmount (fst (PopupCourseBlockDragHandle.mount store')) mounted' in
  (subscribedKeys mounted
   = subscribedKeys store ++ ["enableCourseStatusChips"; "enableTimeAndLocationInPopup"]%string
   /\ (forall v st, PopupCourseBlock.enableCourseStatusChips
                      (notify "enableCourseStatusChips" v mounted st) = v)
   /\ (forall v st, PopupCourseBlock.enableTimeAndLocationInPopup
                      (notify "enableTimeAndLocationInPopup" v mounted st) = v)
   /\ listeners unmounted = listeners store
   /\ (forall k v st, notify k v unmounted st = notify k v store st))
  /\ (subscribedKeys mounted' = subscribedKeys store' ++ ["enableCourseStatusChips"%string]
      /\ (forall v st, PopupCourseBlockDragHandle.enableCourseStatusChips
                         (notify "enableCourseStatusChips" v mounted' st) = v)
      /\ listeners unmounted' = listeners store'
      /\ (forall k v st, notify k v unmounted' st = notify k v store' st))
  /\ (forall k v st,
        notify k v (PopupCourseBlock.unmount (fst (PopupCourseBlock.mount emptyStore))
                      (snd (PopupCourseBlock.mount emptyStore))) st = st)
  /\ (forall k v st,
        notify k v (PopupCourseBlockDragHandle.unmount
                      (fst (PopupCourseBlockDragHandle.mount emptyStore))
                      (snd (PopupCourseBlockDragHandle.mount emptyStore))) st = st).
Proof.
  intros mounted unmounted mounted' unmounted'.
  assert (Hback : listeners unmounted = listeners store)
    by (apply PopupCourseBlock_unmount_mount; exact Hwf).
  assert (Hback' : listeners unmounted' = listeners store')
    by (apply removeListener_listen; exact Hwf').
  split; [| split; [| split]].
  - split; [| split; [| split; [| split]]].
    + unfold mounted, subscribedKeys. cbn. rewrite <- app_assoc, map_app. reflexivity.
    + intros v st. unfold mounted, notify. cbn.
      rewrite <- app_assoc, fold_left_app. reflexivity.
    + intros v st. unfold mounted, notify. cbn.
      rewrite <- app_assoc, fold_left_app. reflexivity.
    + exact Hback.
    + intros k v st. apply notify_listeners. exact Hback.
  - split; [| split; [| split]].
    + unfold mounted', subscribedKeys. cbn. rewrite map_app. reflexivity.
    + intros v st. unfold mounted', notify. cbn.
      rewrite fold_left_app. reflexivity.
    + exact Hback'.
    + intros k v st. apply notify_listeners. exact Hback'.
  - intros k v st. reflexivity.
  - intros k v st. reflexivity.
Qed.

End SettingsSubscriptionFacts.

Lemma C7_subscription_lifecycle_witness :
  OptionsStore.wellFormed (@OptionsStore.emptyStore PopupCourseBlock.State)
  /\ OptionsStore.wellFormed (@OptionsStore.emptyStore PopupCourseBlockDragHandle.State)
  /\ OptionsStore.listeners
       (PopupCourseBlock.unmount (fst (PopupCourseBlock.mount OptionsStore.emptyStore))
          (snd (PopupCourseBlock.mount OptionsStore.emptyStore))) = [].
Proof.
  assert (H1 : OptionsStore.wellFormed (@OptionsStore.emptyStore PopupCourseBlock.State))
    by constructor.
  assert (H2 : OptionsStore.wellFormed (@OptionsStore.emptyStore PopupCourseBlockDragHandle.State))
    by constructor.
  split; [exact H1 |]. split; [exact H2 |].
  exact (proj1 (proj2 (proj2 (proj2 (proj1
           (C7_subscription_lifecycle OptionsStore.emptyStore OptionsStore.emptyStore H1 H2)))))).
Defined.

(** C7 (as stated) fails for the variant of the block that takes
    [dragHandleProps]: it registers one listener, for
    enableCourseStatusChips, and none for enableTimeAndLocationInPopup. *)
Lemma C7_counterexample_variant_one_setting :
  OptionsStore.subscribedKeys (snd (PopupCourseBlockDragHandle.mount OptionsStore.emptyStore))
  = ["enableCourseStatusChips"%string]
  /\ ~ (In "enableCourseStatusChips"%string
          (OptionsStore.subscribedKeys
             (snd (PopupCourseBlockDragHandle.mount OptionsStore.emptyStore)))
        /\ In "enableTimeAndLocationInPopup"%string
             (OptionsStore.subscribedKeys
                (snd (PopupCourseBlockDragHandle.mount OptionsStore.emptyStore)))).
Proof.
  split; [reflexivity |].
  intros [_ [H | []]]. discriminate H.
Qed.

Section RenderFacts.
Import Course.
(** [Status.OPEN]. *)
Variable OPEN : Status.

Lemma chip_condition (enabled : bool) (s : Status) :
  enabled && negb (String.eqb s OPEN) = true <-> enabled = true /\ s <> OPEN.
Proof.
  rewrite andb_true_iff, negb_true_iff, String.eqb_neq. reflexivity.
Qed.

Lemma render_chip (course : Course) (st : PopupCourseBlock.State) (s : Status) :
  In (PopupCourseBlock.StatusChip s) (PopupCourseBlock.render OPEN course st)
  <-> (PopupCourseBlock.enableCourseStatusChips st
       && negb (String.eqb (status course) OPEN) = true /\ s = status course).
Proof.
  unfold PopupCourseBlock.render. rewrite !in_app_iff.
  destruct (PopupCourseBlock.enableTimeAndLocationInPopup st);
    destruct (PopupCourseBlock.enableCourseStatusChips st
              && negb (String.eqb (status course) OPEN));
    cbn [In]; intuition (try discriminate; try congruence).
Qed.

Lemma render_chip_variant (course : Course) (st : PopupCourseBlockDragHandle.State)
    (s : Status) :
  In (PopupCourseBlockDragHandle.StatusChip s)
     (PopupCourseBlockDragHandle.render OPEN course st)
  <-> (PopupCourseBlockDragHandle.enableCourseStatusChips st
       && negb (String.eqb (status course) OPEN) = true /\ s = status course).
Proof.
  unfold PopupCourseBlockDragHandle.render. rewrite !in_app_iff.
  destruct (PopupCourseBlockDragHandle.enableCourseStatusChips st
            && negb (String.eqb (status course) OPEN));
    cbn [In]; intuition (try discriminate; try congruence).
Qed.

(** C8: in both variants of the block, for every course and every value
    of the enableCourseStatusChips setting, a status chip is among the
    rendered elements if and only if the setting is on and the status of
    the course is not OPEN; the chip is then that of the course's
    status. *)
Theorem C8_status_chip_visibility (course : Course)
    (st : PopupCourseBlock.State) (st' : PopupCourseBlockDragHandle.State) :
  ((exists s, In (PopupCourseBlock.StatusChip s) (PopupCourseBlock.render OPEN course st))
   <-> PopupCourseBlock.enableCourseStatusChips st = true /\ status course <> OPEN)
  /\ ((exists s, In (PopupCourseBlockDragHandle.StatusChip s)
                   (PopupCourseBlockDragHandle.render OPEN course st'))
      <-> PopupCourseBlockDragHandle.enableCourseStatusChips st' = true
          /\ status course <> OPEN)
  /\ (forall s, In (PopupCourseBlock.StatusChip s) (PopupCourseBlock.render OPEN course st)
                -> s = status course)
  /\ (forall s, In (PopupCourseBlockDragHandle.StatusChip s)
                  (PopupCourseBlockDragHandle.render OPEN course st')
                -> s = status course).
Proof.
  split; [| split; [| split]].
  - rewrite <- chip_condition. split.
    + intros [s H]. apply render_chip in H. apply H.
    + intros H. exists (status course). apply render_chip. split; [exact H | reflexivity].
  - rewrite <- chip_condition. split.
    + intros [s H]. apply render_chip_variant in H. apply H.
    + intros H. exists (status course). apply render_chip_variant.
      split; [exact H | reflexivity].
  - intros s H. apply render_chip in H. apply H.
  - intros s H. apply render_chip_variant in H. apply H.
Qed.

End RenderFacts.

Section HandleClickFacts.
Import Course Async.

Lemma handleClick_traces (course : Course) (settlements : list Settlement) :
  let call := SwitchToCalendarTab (uniqueId course) in
  let tr := trace (PopupCourseBlock.handleClick course) settlements in
  (hd_error settlements = Some Resolves /\ tr = [Called call; Resolved call; Called WindowClose])
  \/ (hd_error settlements = Some Rejects /\ tr = [Called call; Rejected call; UnhandledRejection])
  \/ ((hd_error settlements = Some StaysPending \/ settlements = []) /\ tr = [Called call]).
Proof.
  destruct settlements as [| [] rest]; cbn; auto 6.
Qed.

(** C9: a click on the block, in either variant, first calls the
    switch-to-calendar-tab action with the course's uniqueId; the popup
    window is closed only after that call has resolved, and it is closed
    exactly when the call resolves: not when it rejects and not while it
    is pending. *)
Theorem C9_close_after_switch_resolves (course : Course) (settlements : list Settlement) :
  let call := SwitchToCalendarTab (uniqueId course) in
  let tr := trace (PopupCourseBlock.handleClick course) settlements in
  PopupCourseBlockDragHandle.handleClick course = PopupCourseBlock.handleClick course
  /\ nth_error tr 0 = Some (Called call)
  /\ (forall n, nth_error tr n = Some (Called WindowClose) ->
        exists m, (m < n)%nat /\ nth_error tr m = Some (Resolved call))
  /\ (In (Called WindowClose) tr <-> hd_error settlements = Some Resolves).
Proof.
  intros call tr.
  pose proof (handleClick_traces course settlements) as H. cbn zeta in H.
  fold call in H. fold tr in H.
  split; [reflexivity |].
  destruct H as [[Hs ->] | [[Hs ->] | [Hs ->]]].
  - split; [reflexivity |]. split.
    + intros [| [| [| n]]]; cbn; try discriminate.
      * intros _. exists 1%nat. split; [lia | reflexivity].
      * destruct n; discriminate.
    + split; [intros _; exact Hs | intros _; cbn; auto].
  - split; [reflexivity |]. split.
    + intros [| [| [| n]]]; cbn; try discriminate. destruct n; discriminate.
    + split; [cbn; intuition discriminate | rewrite Hs; discriminate].
  - split; [reflexivity |]. split.
    + intros [| n]; cbn; try discriminate. destruct n; discriminate.
    + split; [cbn; intuition discriminate |].
      destruct Hs as [Hs | ->]; [rewrite Hs |]; discriminate.
Qed.

End HandleClickFacts.

Lemma C9_close_after_switch_resolves_witness :
  let course := Course.mkCourse 1234 "OPEN"%string in
  let tr := Async.trace (PopupCourseBlock.handleClick course) [Async.Resolves] in
  nth_error tr 2 = Some (Async.Called Async.WindowClose)
  /\ exists m, (m < 2)%nat
       /\ nth_error tr m = Some (Async.Resolved (Async.SwitchToCalendarTab 1234)).
Proof.
  intros course tr.
  assert (H : nth_error tr 2 = Some (Async.Called Async.WindowClose)) by reflexivity.
  split; [exact H |].
  exact (proj1 (proj2 (proj2 (C9_close_after_switch_resolves course [Async.Resolves]))) 2%nat H).
Defined.

Example formattedUniqueId_pads :
  PopupCourseBlock.formattedUniqueId (Course.mkCourse 42 "OPEN"%string) = "00042"%string
  /\ PopupCourseBlock.formattedUniqueId (Course.mkCourse 54321 "CLOSED"%string) = "54321"%string.
Proof. split; reflexivity. Qed.

(* ================================================================== *)
(** * Part III: further properties of the components *)
(* ================================================================== *)

Section HeaderSettlingFacts.
Import CalendarHeader CalendarHeaderLabels.

Ltac header_cases st w :=
  unfold resizeStep, transition,
    SECONDARY_ACTIONS_WITH_TEXT_WIDTH, PRIMARY_ACTION_WITH_TEXT_WIDTH,
    PRIMARY_ACTION_WITHOUT_TEXT_WIDTH;
  destruct st as [[] []];
  cbn [isDisplayingPrimaryActionsText isDisplayingSecondaryActionsText];
  destruct (Z.ltb_spec w 274);
  destruct (Z.geb_spec (w - 274) (405 - 160));
  destruct (Z.geb_spec w 274);
  try lia; cbn.

Lemma resizeStep_twice_fixed (st : DisplayingText) (w : Z) :
  resizeStep (resizeStep (resizeStep st w) w) w = resizeStep (resizeStep st w) w.
Proof.
  header_cases st w;
    repeat match goal with
           | |- context [if ?c then _ else _] => destruct c
           end; try reflexivity; try lia.
Qed.

Lemma resizeSteps_fixed (n : nat) (st : DisplayingText) (w : Z) :
  resizeStep st w = st -> resizeSteps n st w = st.
Proof.
  intros Hfix. induction n as [| n IH]; [reflexivity |].
  cbn [resizeSteps]. rewrite Hfix. exact IH.
Qed.

(** X1: whatever the state, a width that is observed again and again
    settles the header within two observations: from the second one on the
    state no longer changes. *)
Theorem X1_repeated_width_settles (st : DisplayingText) (w : Z) (n : nat) :
  resizeSteps (2 + n) st w = resizeSteps 2 st w.
Proof.
  change (resizeSteps (2 + n) st w)
    with (resizeSteps n (resizeStep (resizeStep st w) w) w).
  change (resizeSteps 2 st w) with (resizeStep (resizeStep st w) w).
  apply resizeSteps_fixed. apply resizeStep_twice_fixed.
Qed.

(** X2: from any of the three display modes, a width kept below 274 settles
    on no texts at all, a width kept at 519 or more on all texts, and a
    width in between on the secondary texts with the primary texts as they
    were (the hysteresis band). *)
Theorem X2_settled_mode (st : DisplayingText) (w : Z)
    (Hmode : In st displayModes) :
  (w < 274 -> resizeSteps 2 st w = mkDisplayingText false false)
  /\ (519 <= w -> resizeSteps 2 st w = mkDisplayingText true true)
  /\ (274 <= w < 519 ->
      resizeSteps 2 st w = mkDisplayingText (isDisplayingPrimaryActionsText st) true).
Proof.
  change (resizeSteps 2 st w) with (resizeStep (resizeStep st w) w).
  cbn in Hmode.
  destruct Hmode as [<- | [<- | [<- | []]]];
    unfold resizeStep, transition,
      SECONDARY_ACTIONS_WITH_TEXT_WIDTH, PRIMARY_ACTION_WITH_TEXT_WIDTH,
      PRIMARY_ACTION_WITHOUT_TEXT_WIDTH;
    cbn [isDisplayingPrimaryActionsText isDisplayingSecondaryActionsText];
    destruct (Z.ltb_spec w 274);
    destruct (Z.geb_spec (w - 274) (405 - 160));
    destruct (Z.geb_spec w 274);
    try lia; cbn;
    repeat split; intros; try lia; reflexivity.
Qed.

Lemma X2_settled_mode_witness :
  In (mkDisplayingText true true) displayModes
  /\ resizeSteps 2 (mkDisplayingText true true) 200 = mkDisplayingText false false.
Proof.
  assert (H : In (mkDisplayingText true true) displayModes) by (cbn; auto).
  split; [exact H |].
  apply (proj1 (X2_settled_mode (mkDisplayingText true true) 200 H)). lia.
Defined.

Lemma Math_round_monotone (x y : Q) : (x <= y)%Q -> Math_round x <= Math_round y.
Proof.
  intros Hle. unfold Math_round. apply Qfloor_resp_le. lra.
Qed.

Lemma resizeStep_monotone (st : DisplayingText) (w1 w2 : Z) :
  In st displayModes -> w1 <= w2 ->
  incl (buttonTexts (resizeStep st w1)) (buttonTexts (resizeStep st w2)).
Proof.
  intros Hmode Hle. cbn in Hmode.
  destruct Hmode as [<- | [<- | [<- | []]]];
    unfold resizeStep, transition,
      SECONDARY_ACTIONS_WITH_TEXT_WIDTH, PRIMARY_ACTION_WITH_TEXT_WIDTH,
      PRIMARY_ACTION_WITHOUT_TEXT_WIDTH;
    cbn [isDisplayingPrimaryActionsText isDisplayingSecondaryActionsText];
    destruct (Z.ltb_spec w1 274);
    destruct (Z.geb_spec (w1 - 274) (405 - 160));
    destruct (Z.geb_spec w1 274);
    destruct (Z.ltb_spec w2 274);
    destruct (Z.geb_spec (w2 - 274) (405 - 160));
    destruct (Z.geb_spec w2 274);
    try lia; cbn; intros x Hx; cbn in *; tauto.
Qed.

(** X3: from any of the three display modes, a wider measurement never
    shows fewer button texts than a narrower one: every text shown after
    observing the narrower width is also shown after observing the wider
    one. *)
Theorem X3_wider_shows_no_less (st : DisplayingText) (e1 e2 : ResizeObserverEntry)
    (Hmode : In st displayModes)
    (Hle : (contentRect_width e1 <= contentRect_width e2)%Q) :
  incl (buttonTexts (observe st [e1])) (buttonTexts (observe st [e2])).
Proof.
  unfold observe, resizeObserverCallback.
  apply (resizeStep_monotone st _ _ Hmode).
  apply Math_round_monotone. exact Hle.
Qed.

Lemma X3_wider_shows_no_less_witness :
  In (mkDisplayingText false true) displayModes
  /\ (contentRect_width (mkEntry (2001 # 10)) <= contentRect_width (mkEntry (6000 # 10)))%Q
  /\ incl (buttonTexts (observe (mkDisplayingText false true) [mkEntry (2001 # 10)]))
          (buttonTexts (observe (mkDisplayingText false true) [mkEntry (6000 # 10)])).
Proof.
  assert (H : In (mkDisplayingText false true) displayModes) by (cbn; auto).
  assert (Hle : (contentRect_width (mkEntry (2001 # 10))
                 <= contentRect_width (mkEntry (6000 # 10)))%Q)
    by (cbn; unfold Qle; cbn; lia).
  split; [exact H |]. split; [exact Hle |].
  exact (X3_wider_shows_no_less _ _ _ H Hle).
Defined.

(** X4: in terms of the width as measured, before rounding, the secondary
    threshold is 273.5 and the primary one 518.5: the rounded width is
    below 274 exactly when the measured width is below 273.5, and it passes
    the test for the primary texts exactly when the measured width is at
    least 518.5. *)
Theorem X4_thresholds_on_measured_width (x : Q) :
  (Math_round x < SECONDARY_ACTIONS_WITH_TEXT_WIDTH <-> (x < 2735 # 10)%Q)
  /\ (Math_round x - SECONDARY_ACTIONS_WITH_TEXT_WIDTH
      >= PRIMARY_ACTION_WITH_TEXT_WIDTH - PRIMARY_ACTION_WITHOUT_TEXT_WIDTH
      <-> (5185 # 10 <= x)%Q).
Proof.
  unfold SECONDARY_ACTIONS_WITH_TEXT_WIDTH, PRIMARY_ACTION_WITH_TEXT_WIDTH,
    PRIMARY_ACTION_WITHOUT_TEXT_WIDTH.
  destruct (Math_round_nearest x) as [Hlo Hhi].
  split; split.
  - intros Hlt.
    assert (Hq : (inject_Z (Math_round x) <= 273)%Q).
    { change 273%Q with (inject_Z 273). rewrite <- Zle_Qle. lia. }
    lra.
  - intros Hlt.
    assert (Hq : (inject_Z (Math_round x) < 274)%Q) by lra.
    change 274%Q with (inject_Z 274) in Hq.
    rewrite <- Zlt_Qlt in Hq. exact Hq.
  - intros Hge.
    assert (Hq : (519 <= inject_Z (Math_round x))%Q).
    { change 519%Q with (inject_Z 519). rewrite <- Zle_Qle. lia. }
    lra.
  - intros Hge.
    assert (Hq : (518 < inject_Z (Math_round x))%Q) by lra.
    change 518%Q with (inject_Z 518) in Hq.
    rewrite <- Zlt_Qlt in Hq. lia.
Qed.

End HeaderSettlingFacts.

Section SortableSessionFacts.
Import SortableList SortableListSession.
Context {T : Type}.
Variable id : T -> UniqueIdentifier.

Lemma findIndexFrom_range (p : T -> bool) (l : list T) :
  forall k, findIndexFrom p l k = -1
            \/ k <= findIndexFrom p l k < k + Z.of_nat (List.length l).
Proof.
  induction l as [| x rest IH]; intros k; cbn [findIndexFrom List.length].
  - left. reflexivity.
  - destruct (p x); [right; lia |].
    destruct (IH (k + 1)) as [-> | H]; [left; reflexivity | right; lia].
Qed.

Lemma arrayMove_Permutation (l l' : list T) (from to : Z) :
  arrayMove l from to = Some l' -> Permutation l l'.
Proof.
  unfold arrayMove, spliceOut, spliceIn.
  destruct (nth_error l (spliceStart (List.length l) from)) as [x |] eqn:E;
    [| discriminate].
  intros [= <-].
  fold (removeAt (spliceStart (List.length l) from) l).
  etransitivity; [apply removeAt_Permutation; exact E |].
  apply insertAt_Permutation.
Qed.

Lemma arrayMove_findIndex_total (l : list T) (p : T -> bool) (to : Z) :
  l <> [] -> arrayMove l (findIndex p l) to <> None.
Proof.
  intros Hne. unfold arrayMove, spliceOut.
  destruct (nth_error l (spliceStart (List.length l) (findIndex p l))) eqn:E;
    [discriminate |].
  exfalso. apply nth_error_None in E.
  assert (Hlen : (0 < List.length l)%nat) by (destruct l; [contradiction | cbn; lia]).
  unfold spliceStart, findIndex in E.
  destruct (findIndexFrom_range p l 0) as [H | H].
  - rewrite H in E. cbn in E. lia.
  - destruct (Z.ltb_spec (findIndexFrom p l 0) 0); lia.
Qed.

Lemma onDragEnd_outcome (a : Active) (over : option Over) (st : State) (out : Outcome) :
  onDragEnd id a over st = Some out ->
  Permutation (items st) (items (fst out))
  /\ active (fst out) = None /\ isDragging (fst out) = false
  /\ (snd out = [] /\ items (fst out) = items st \/ snd out = [items (fst out)]).
Proof.
  assert (Hnoop : forall l : list T,
             Permutation l l /\ @None Active = None /\ false = false
             /\ (@nil (list T) = [] /\ l = l \/ @nil (list T) = [l])).
  { intros l. split; [apply Permutation_refl | auto]. }
  unfold onDragEnd.
  destruct over as [o |]; [| intros [= <-]; cbn; apply Hnoop].
  destruct (negb (strict_eq (active_id a) (over_id o)));
    [| intros [= <-]; cbn; apply Hnoop].
  destruct (arrayMove _ _ _) as [reordered |] eqn:E; [| discriminate].
  intros [= <-]. cbn. apply arrayMove_Permutation in E. auto.
Qed.

(** X5: on a list that is not empty, a drag end always leaves a proper
    sequence, and whatever identifiers the event carries, found among the
    items or not, that sequence is a permutation of the one held before;
    [onChange] is called at most once, and then with the sequence the
    component now holds. *)
Theorem X5_onDragEnd_permutes (a : Active) (over : option Over) (st : State)
    (Hitems : items st <> []) :
  exists st' calls,
    onDragEnd id a over st = Some (st', calls)
    /\ Permutation (items st) (items st')
    /\ List.length (items st') = List.length (items st)
    /\ (calls = [] /\ items st' = items st \/ calls = [items st']).
Proof.
  destruct (onDragEnd id a over st) as [[st' calls] |] eqn:E.
  - exists st', calls. destruct (onDragEnd_outcome a over st _ E) as (Hp & _ & _ & Hc).
    cbn in Hp, Hc. repeat split; auto.
    symmetry. apply Permutation_length. exact Hp.
  - exfalso. unfold onDragEnd in E.
    destruct over as [o |]; [| discriminate].
    destruct (negb (strict_eq (active_id a) (over_id o))); [| discriminate].
    destruct (arrayMove _ _ _) eqn:E'; [discriminate |].
    revert E'. apply arrayMove_findIndex_total. exact Hitems.
Qed.

Lemma firstn_skipn_at_length (l1 l2 : list T) :
  firstn (List.length l1) (l1 ++ l2) = l1 /\ skipn (List.length l1) (l1 ++ l2) = l2.
Proof.
  split.
  - rewrite firstn_app, Nat.sub_diag, firstn_O, app_nil_r. apply firstn_all.
  - rewrite skipn_app, Nat.sub_diag, skipn_all. reflexivity.
Qed.

Lemma insertAt_removeAt (l : list T) (i : nat) (x : T) :
  nth_error l i = Some x -> insertAt i x (removeAt i l) = l.
Proof.
  intros Hnth.
  destruct (nth_error_split l i Hnth) as (l1 & l2 & -> & Hlen). subst i.
  assert (Hrem : removeAt (List.length l1) (l1 ++ x :: l2) = l1 ++ l2).
  { unfold removeAt.
    destruct (firstn_skipn_at_length l1 (x :: l2)) as [-> _].
    change (S (List.length l1)) with (1 + List.length l1)%nat.
    rewrite <- skipn_skipn.
    destruct (firstn_skipn_at_length l1 (x :: l2)) as [_ ->]. reflexivity. }
  rewrite Hrem. unfold insertAt.
  destruct (firstn_skipn_at_length l1 l2) as [-> ->]. reflexivity.
Qed.

Lemma moveItem_back (l : list T) (i j : nat) (x : T) :
  nth_error l i = Some x -> (j < List.length l)%nat ->
  moveItem j i (moveItem i j l) = l.
Proof.
  intros Hnth Hj.
  destruct (moveItem_spec l i j x Hnth Hj) as (Hat & Hothers & _).
  unfold moveItem at 1. rewrite Hat, Hothers.
  apply insertAt_removeAt. exact Hnth.
Qed.

Lemma onDragEnd_found (st : State) (a : Active) (o : Over) (i j : nat) (ai oi : T) :
  NoDup (map id (items st)) ->
  nth_error (items st) i = Some ai -> id ai = active_id a ->
  nth_error (items st) j = Some oi -> id oi = over_id o ->
  active_id a <> over_id o ->
  onDragEnd id a (Some o) st
  = Some ({| active := None; isDragging := false; items := moveItem i j (items st) |},
          [moveItem i j (items st)]).
Proof.
  intros Huniq Hi Hai Hj Hoj Hneq.
  assert (Hilt : (i < List.length (items st))%nat) by (apply nth_error_Some; congruence).
  assert (Hjlt : (j < List.length (items st))%nat) by (apply nth_error_Some; congruence).
  unfold onDragEnd.
  destruct (strict_eq (active_id a) (over_id o)) eqn:E.
  { apply strict_eq_true_iff in E. contradiction. }
  cbn [negb]. rewrite <- Hai, <- Hoj.
  rewrite (findIndex_unique id (items st) i ai Huniq Hi).
  rewrite (findIndex_unique id (items st) j oi Huniq Hj).
  rewrite (arrayMove_moveItem (items st) i j Hilt Hjlt). reflexivity.
Qed.

(** X6: in a list of uniquely identified items, dragging an item from
    index [i] onto the item at index [j] and then dragging it back onto the
    item that now sits at index [i] restores the original sequence; the
    second [onChange] call carries the original sequence. *)
Theorem X6_drag_back_restores (st : State) (a : Active) (o : Over) (i j : nat) (ai oi : T)
    (Huniq : NoDup (map id (items st)))
    (Hi : nth_error (items st) i = Some ai) (Hai : id ai = active_id a)
    (Hj : nth_error (items st) j = Some oi) (Hoj : id oi = over_id o)
    (Hneq : active_id a <> over_id o) :
  exists st1 st2 back,
    onDragEnd id a (Some o) st = Some (st1, [items st1])
    /\ nth_error (items st1) j = Some ai
    /\ nth_error (items st1) i = Some back
    /\ onDragEnd id a (Some (mkOver (id back))) st1 = Some (st2, [items st])
    /\ items st2 = items st.
Proof.
  assert (Hilt : (i < List.length (items st))%nat) by (apply nth_error_Some; congruence).
  assert (Hjlt : (j < List.length (items st))%nat) by (apply nth_error_Some; congruence).
  destruct (moveItem_spec (items st) i j ai Hi Hjlt) as (Hat & _ & Hperm).
  set (moved := moveItem i j (items st)) in *.
  assert (Hlen : List.length moved = List.length (items st))
    by (symmetry; apply Permutation_length; exact Hperm).
  destruct (nth_error moved i) as [back |] eqn:Hback;
    [| apply nth_error_None in Hback; lia].
  assert (Huniq' : NoDup (map id moved)).
  { eapply Permutation_NoDup; [apply Permutation_map; exact Hperm | exact Huniq]. }
  assert (Hij : i <> j) by (intros ->; congruence).
  assert (Hneq' : active_id a <> id back).
  { rewrite <- Hai. intros Heq.
    apply Hij. symmetry.
    apply (proj1 (NoDup_nth_error (map id moved)) Huniq' j i).
    - rewrite length_map. lia.
    - rewrite !nth_error_map, Hat, Hback. cbn. congruence. }
  exists {| active := None; isDragging := false; items := moved |},
         {| active := None; isDragging := false; items := items st |}, back.
  cbn [items].
  split; [apply (onDragEnd_found st a o i j ai oi); assumption |].
  split; [exact Hat |]. split; [exact Hback |]. split; [| reflexivity].
  rewrite (onDragEnd_found {| active := None; isDragging := false; items := moved |}
             a (mkOver (id back)) j i ai back Huniq' Hat Hai Hback eq_refl Hneq').
  cbn [items]. unfold moved.
  rewrite (moveItem_back (items st) i j ai Hi Hjlt). reflexivity.
Qed.

End SortableSessionFacts.

Section SortableSessionWitnesses.
Import SortableList.

Lemma X5_onDragEnd_permutes_witness :
  let st := SortableList.initialState [10; 20; 30] in
  items st <> []
  /\ exists st' calls,
       onDragEnd NumberId (mkActive (NumberId 99)) (Some (mkOver (NumberId 10))) st
       = Some (st', calls)
       /\ Permutation (items st) (items st').
Proof.
  intros st.
  assert (H : items st <> []) by discriminate.
  split; [exact H |].
  destruct (X5_onDragEnd_permutes NumberId (mkActive (NumberId 99))
              (Some (mkOver (NumberId 10))) st H) as (st' & calls & He & Hp & _).
  exists st', calls. split; assumption.
Defined.

Lemma X6_drag_back_restores_witness :
  let st := SortableList.initialState [10; 20; 30; 40] in
  let a := mkActive (NumberId 10) in
  NoDup (map NumberId (items st))
  /\ nth_error (items st) 0 = Some 10
  /\ nth_error (items st) 2 = Some 30
  /\ active_id a <> NumberId 30
  /\ exists st1 st2 back,
       onDragEnd NumberId a (Some (mkOver (NumberId 30))) st = Some (st1, [items st1])
       /\ nth_error (items st1) 0 = Some back
       /\ onDragEnd NumberId a (Some (mkOver (NumberId back))) st1 = Some (st2, [items st])
       /\ items st2 = items st.
Proof.
  intros st a.
  assert (Huniq : NoDup (map NumberId (items st))).
  { cbn. repeat constructor; cbn; intuition discriminate. }
  assert (Hneq : active_id a <> NumberId 30) by discriminate.
  split; [exact Huniq |]. split; [reflexivity |]. split; [reflexivity |].
  split; [exact Hneq |].
  destruct (X6_drag_back_restores NumberId st a (mkOver (NumberId 30)) 0%nat 2%nat 10 30
              Huniq eq_refl eq_refl eq_refl eq_refl Hneq)
    as (st1 & st2 & back & H1 & _ & H2 & H3 & H4).
  exists st1, st2, back. repeat split; assumption.
Defined.

End SortableSessionWitnesses.

Section SortableLifecycleFacts.
Import SortableList SortableListSession.
Context {T : Type}.
Variable id : T -> UniqueIdentifier.

Lemma handleEvent_flags (ev : DragEvent) (st : State) (out : Outcome) :
  handleEvent id ev st = Some out ->
  (isDragging st = true <-> active st <> None) ->
  (isDragging (fst out) = true <-> active (fst out) <> None).
Proof.
  destruct ev as [a | a over | | draggables]; cbn [handleEvent].
  - intros [= <-] _. cbn. split; [discriminate | reflexivity].
  - intros H _. destruct (onDragEnd_outcome id a over st out H) as (_ & -> & -> & _).
    split; [discriminate | congruence].
  - intros [= <-] _. cbn. split; [discriminate | congruence].
  - intros [= <-] Hinv. cbn. exact Hinv.
Qed.

Lemma handleEvent_items (ev : DragEvent) (st : State) (out : Outcome) :
  isDraggablesChanged ev = false ->
  handleEvent id ev st = Some out ->
  Permutation (items st) (items (fst out))
  /\ Forall (Permutation (items st)) (snd out).
Proof.
  destruct ev as [a | a over | | draggables]; cbn [handleEvent isDraggablesChanged];
    try discriminate; intros _.
  - intros [= <-]. cbn. split; [apply Permutation_refl | constructor].
  - intros H. destruct (onDragEnd_outcome id a over st out H) as (Hp & _ & _ & Hc).
    split; [exact Hp |].
    destruct Hc as [[-> _] | ->]; repeat constructor. exact Hp.
  - intros [= <-]. cbn. split; [apply Permutation_refl | constructor].
Qed.

Lemma session_invariants (evs : list DragEvent) :
  forall (st st' : State) (calls calls' : list (list T)),
    session id evs st calls = Some (st', calls') ->
    ((isDragging st = true <-> active st <> None) ->
     (isDragging st' = true <-> active st' <> None))
    /\ (forallb (fun ev => negb (isDraggablesChanged ev)) evs = true ->
        Permutation (items st) (items st')
        /\ exists new, calls' = calls ++ new /\ Forall (Permutation (items st)) new).
Proof.
  induction evs as [| ev rest IH]; intros st st' calls calls'; cbn [session forallb].
  - intros [= <- <-]. split; [auto |]. intros _.
    split; [apply Permutation_refl |]. exists []. rewrite app_nil_r. auto.
  - destruct (handleEvent id ev st) as [[st1 new1] |] eqn:E; [| discriminate].
    intros Hrest. destruct (IH _ _ _ _ Hrest) as [Hflags Hitems].
    split.
    + intros Hinv. apply Hflags.
      apply (handleEvent_flags ev st (st1, new1) E Hinv).
    + intros Hall. apply andb_true_iff in Hall as [Hev Hall].
      apply negb_true_iff in Hev.
      destruct (handleEvent_items ev st (st1, new1) Hev E) as [Hp1 Hc1].
      cbn [fst snd] in Hp1, Hc1.
      destruct (Hitems Hall) as (Hp & new & -> & Hnew).
      split; [etransitivity; eassumption |].
      exists (new1 ++ new). rewrite app_assoc. split; [reflexivity |].
      apply Forall_app. split; [exact Hc1 |].
      eapply Forall_impl; [| exact Hnew].
      cbn. intros l Hl. etransitivity; eassumption.
Qed.

(** X7: through any sequence of drag events (start, end, cancel, in any
    order) and changes of the [draggables] prop, from the first render on,
    the component is in dragging mode exactly when it holds an active
    item. *)
Theorem X7_dragging_iff_active (draggables : list T) (evs : list DragEvent)
    (st' : State) (calls' : list (list T))
    (Hrun : session id evs (initialState draggables) [] = Some (st', calls')) :
  isDragging st' = true <-> active st' <> None.
Proof.
  apply (proj1 (session_invariants evs _ _ _ _ Hrun)).
  cbn. split; [discriminate | congruence].
Qed.

(** X8: as long as the [draggables] prop does not change, whatever drags
    are started, ended or cancelled, the sequence the component holds and
    every sequence handed to [onChange] are permutations of the sequence it
    was given: no item is created, lost or duplicated. *)
Theorem X8_session_permutes (draggables : list T) (evs : list DragEvent)
    (st' : State) (calls' : list (list T))
    (Hprops : forallb (fun ev => negb (isDraggablesChanged ev)) evs = true)
    (Hrun : session id evs (initialState draggables) [] = Some (st', calls')) :
  Permutation draggables (items st')
  /\ Forall (Permutation draggables) calls'.
Proof.
  destruct (proj2 (session_invariants evs _ _ _ _ Hrun) Hprops) as (Hp & new & -> & Hnew).
  split; [exact Hp | exact Hnew].
Qed.

Lemma find_unique (l : list T) :
  forall (i : nat) (x : T),
    NoDup (map id l) -> nth_error l i = Some x ->
    find (fun item => strict_eq (id item) (id x)) l = Some x.
Proof.
  induction l as [| y rest IH]; intros i x Hnd Hnth.
  - destruct i; discriminate.
  - destruct i as [| i]; cbn in Hnth |- *.
    + inversion Hnth; subst. rewrite strict_eq_refl. reflexivity.
    + inversion Hnd as [| ? ? Hnotin Hnd']; subst.
      destruct (strict_eq (id y) (id x)) eqn:E.
      * apply strict_eq_true_iff in E. exfalso. apply Hnotin.
        rewrite E. apply in_map. eapply nth_error_In; exact Hnth.
      * apply (IH i x Hnd' Hnth).
Qed.

(** X9: the item shown in the drag overlay.  While a drag is in progress
    over uniquely identified items it is the dragged item; it is nothing
    when the dragged identifier is not among the items, and nothing again
    once the drag is cancelled or has ended. *)
Theorem X9_overlay_item (st : State) (a : Active) :
  (forall (i : nat) (x : T),
      NoDup (map id (items st)) -> nth_error (items st) i = Some x ->
      id x = active_id a ->
      activeItem id (fst (onDragStart a st)) = Some x)
  /\ ((forall x, In x (items st) -> id x <> active_id a) ->
      activeItem id (fst (onDragStart a st)) = None)
  /\ activeItem id (fst (onDragCancel st)) = None
  /\ (forall over out, onDragEnd id a over st = Some out ->
        activeItem id (fst out) = None).
Proof.
  split; [| split; [| split]].
  - intros i x Huniq Hnth Hid. unfold activeItem, onDragStart. cbn [fst active items].
    rewrite <- Hid. apply (find_unique (items st) i x Huniq Hnth).
  - intros Hnone. unfold activeItem, onDragStart. cbn [fst active items].
    destruct (find _ (items st)) as [x |] eqn:E; [| reflexivity].
    apply find_some in E as [Hin Heq]. apply strict_eq_true_iff in Heq.
    exfalso. exact (Hnone x Hin Heq).
  - reflexivity.
  - intros over out H. destruct (onDragEnd_outcome id a over st out H) as (_ & Ha & _).
    unfold activeItem. rewrite Ha. reflexivity.
Qed.

End SortableLifecycleFacts.

Section SortableLifecycleWitnesses.
Import SortableList SortableListSession.

Lemma X7_dragging_iff_active_witness :
  let evs := [DragStart (mkActive (NumberId 10));
              DraggablesChanged [30; 10];
              DragEnd (mkActive (NumberId 10)) (Some (mkOver (NumberId 30)));
              DragStart (mkActive (NumberId 30))] in
  session NumberId evs (initialState [10; 20; 30]) []
  = Some (mkState (Some (mkActive (NumberId 30))) true [10; 30], [[10; 30]])
  /\ (true = true <-> Some (mkActive (NumberId 30)) <> None).
Proof.
  intros evs.
  assert (H : session NumberId evs (initialState [10; 20; 30]) []
              = Some (mkState (Some (mkActive (NumberId 30))) true [10; 30], [[10; 30]]))
    by reflexivity.
  split; [exact H |].
  exact (X7_dragging_iff_active NumberId [10; 20; 30] evs _ _ H).
Defined.

Lemma X8_session_permutes_witness :
  let evs := [DragStart (mkActive (NumberId 10));
              DragEnd (mkActive (NumberId 10)) (Some (mkOver (NumberId 30)));
              DragStart (mkActive (NumberId 20));
              DragCancel] in
  session NumberId evs (initialState [10; 20; 30]) []
  = Some (mkState None false [20; 30; 10], [[20; 30; 10]])
  /\ Permutation [10; 20; 30] [20; 30; 10].
Proof.
  intros evs.
  assert (H : session NumberId evs (initialState [10; 20; 30]) []
              = Some (mkState None false [20; 30; 10], [[20; 30; 10]]))
    by reflexivity.
  split; [exact H |].
  exact (proj1 (X8_session_permutes NumberId [10; 20; 30] evs _ _ eq_refl H)).
Defined.

Lemma X9_overlay_item_witness :
  let st := initialState [10; 20; 30] in
  NoDup (map NumberId (items st))
  /\ nth_error (items st) 1 = Some 20
  /\ activeItem NumberId (fst (onDragStart (mkActive (NumberId 20)) st)) = Some 20.
Proof.
  intros st.
  assert (Huniq : NoDup (map NumberId (items st))).
  { cbn. repeat constructor; cbn; intuition discriminate. }
  split; [exact Huniq |]. split; [reflexivity |].
  exact (proj1 (X9_overlay_item NumberId st (mkActive (NumberId 20)))
           1%nat 20 Huniq eq_refl eq_refl).
Defined.

End SortableLifecycleWitnesses.

Section FormattedUniqueIdFacts.
Import Course PopupCourseBlock.











End FormattedUniqueIdFacts.

Section CopyRateFacts.
Import Course PopupCourseBlock PopupCourseBlockEffects.
Variable course : Course.

Lemma step_copy (now : Z) (st : State) :
  (now - lastCopyTime st < 500
   /\ lastCopyTime (step course st (Copy now)) = lastCopyTime st
   /\ clipboard (step course st (Copy now)) = clipboard st)
  \/ (500 <= now - lastCopyTime st
      /\ lastCopyTime (step course st (Copy now)) = now
      /\ clipboard (step course st (Copy now)) = clipboard st ++ [formattedUniqueId course]).
Proof.
  destruct (advance_keeps now st) as (Hl & Hc & _).
  unfold step. cbn [timeOf]. unfold handleCopy. rewrite Hl.
  destruct (Z.ltb_spec (now - lastCopyTime st) 500).
  - left. rewrite Hl, Hc. auto.
  - right. cbn [lastCopyTime clipboard]. rewrite Hc. auto.
Qed.

Lemma step_other (ev : Event) (st : State) :
  (forall now, ev <> Copy now) ->
  lastCopyTime (step course st ev) = lastCopyTime st
  /\ clipboard (step course st ev) = clipboard st.
Proof.
  intros Hev. apply (step_notAccepted course (lastCopyTime st)); [| reflexivity].
  destruct ev as [now | |]; cbn; auto. exfalso. exact (Hev now eq_refl).
Qed.

(** Once a copy has been stamped, the writes still to come before [b] are
    bounded by the time left. *)
Lemma writes_after_stamp (b : Z) (evs : list Event) :
  forall st,
    Forall (fun ev => match ev with Copy now => now <= b | _ => True end) evs ->
    Z.of_nat (List.length (clipboard (run course evs st)))
    <= Z.of_nat (List.length (clipboard st)) + Z.max 0 ((b - lastCopyTime st) / 500).
Proof.
  induction evs as [| ev rest IH]; intros st Hall.
  - cbn. lia.
  - change (run course (ev :: rest) st) with (run course rest (step course st ev)).
    inversion Hall as [| ? ? Hev Hrest]; subst.
    specialize (IH (step course st ev) Hrest).
    destruct ev as [now | at_ | at_].
    + destruct (step_copy now st) as [(Hg & Hl & Hc) | (Hg & Hl & Hc)];
        rewrite Hl, Hc in IH.
      * exact IH.
      * rewrite length_app in IH. cbn [List.length] in IH.
        assert (Hdiv : (b - lastCopyTime st) / 500 >= 1 + (b - now) / 500).
        { replace (b - lastCopyTime st) with ((b - now) + (now - lastCopyTime st)) by lia.
          assert (H1 : (b - now + 1 * 500) / 500 = (b - now) / 500 + 1)
            by (apply Z.div_add; lia).
          assert (H2 : (b - now + 1 * 500) / 500
                       <= (b - now + (now - lastCopyTime st)) / 500)
            by (apply Z.div_le_mono; lia).
          lia. }
        assert (H0 : 0 <= (b - now) / 500) by (apply Z.div_pos; lia).
        lia.
    + destruct (step_other (WriteResolved at_) st) as [Hl Hc]; [discriminate |].
      rewrite Hl, Hc in IH. exact IH.
    + destruct (step_other (WriteRejected at_) st) as [Hl Hc]; [discriminate |].
      rewrite Hl, Hc in IH. exact IH.
Qed.

(** X12: the guard is a rate limit.  Whatever the state and however many
    times the control is invoked, if every invocation happens between the
    times [a] and [b], at most [1 + (b - a) / 500] texts are written to the
    clipboard; in particular a burst of invocations that spans less than
    500 ms writes at most once. *)
Theorem X12_copy_rate_limit (st : State) (a b : Z) (evs : list Event)
    (Hab : a <= b) (Hwithin : copiesWithin a b evs) :
  Z.of_nat (List.length (clipboard (run course evs st)))
  <= Z.of_nat (List.length (clipboard st)) + 1 + (b - a) / 500.
Proof.
  assert (H0 : 0 <= (b - a) / 500) by (apply Z.div_pos; lia).
  revert st. unfold copiesWithin in Hwithin.
  induction Hwithin as [| ev rest Hev Hrest IH]; intros st.
  - cbn. lia.
  - change (run course (ev :: rest) st) with (run course rest (step course st ev)).
    destruct ev as [now | at_ | at_].
    + destruct (step_copy now st) as [(Hg & Hl & Hc) | (Hg & Hl & Hc)].
      * specialize (IH (step course st (Copy now))). rewrite Hc in IH. exact IH.
      * assert (Hlater : Forall (fun ev => match ev with Copy t => t <= b | _ => True end) rest).
        { eapply Forall_impl; [| exact Hrest]. intros [t | |]; cbn; intros; lia || exact I. }
        pose proof (writes_after_stamp b rest (step course st (Copy now)) Hlater) as Hw.
        rewrite Hl, Hc, length_app in Hw. cbn [List.length] in Hw.
        assert (Hdiv : (b - now) / 500 <= (b - a) / 500) by (apply Z.div_le_mono; lia).
        lia.
    + destruct (step_other (WriteResolved at_) st) as [_ Hc]; [discriminate |].
      specialize (IH (step course st (WriteResolved at_))). rewrite Hc in IH. exact IH.
    + destruct (step_other (WriteRejected at_) st) as [_ Hc]; [discriminate |].
      specialize (IH (step course st (WriteRejected at_))). rewrite Hc in IH. exact IH.
Qed.

(** X13: a write that fails still arms the guard.  After an invocation
    that passed the guard and whose write was rejected, the text has been
    handed to the clipboard once, the rejection is unhandled, the indicator
    and the timeouts are as before, and an invocation less than 500 ms
    after the failed one is ignored. *)
Theorem X13_failed_write_arms_guard (st : State) (t0 t1 : Z)
    (Hfirst : 500 <= t0 - lastCopyTime st) (Hretry : t1 - t0 < 500) :
  let st1 := writeRejected (handleCopy course t0 st) in
  clipboard st1 = clipboard st ++ [formattedUniqueId course]
  /\ unhandledRejections st1 = S (unhandledRejections st)
  /\ pendingWrites st1 = pendingWrites st
  /\ isCopied st1 = isCopied st
  /\ timeouts st1 = timeouts st
  /\ handleCopy course t1 st1 = st1.
Proof.
  intros st1.
  assert (Hst1 : lastCopyTime st1 = t0
                 /\ clipboard st1 = clipboard st ++ [formattedUniqueId course]
                 /\ unhandledRejections st1 = S (unhandledRejections st)
                 /\ pendingWrites st1 = pendingWrites st
                 /\ isCopied st1 = isCopied st
                 /\ timeouts st1 = timeouts st).
  { unfold st1, handleCopy.
    destruct (Z.ltb_spec (t0 - lastCopyTime st) 500); [lia |].
    unfold writeRejected. cbn. repeat split; reflexivity. }
  destruct Hst1 as (Hl & Hc & Hu & Hp & Hi & Ht).
  repeat split; try assumption.
  apply handleCopy_guarded. rewrite Hl. exact Hretry.
Qed.

Lemma indicator_invariant (evs : list Event) :
  forall st,
    (isCopied st = true -> timeouts st <> []) ->
    (isCopied (run course evs st) = true -> timeouts (run course evs st) <> []).
Proof.
  induction evs as [| ev rest IH]; intros st Hinv; [exact Hinv |].
  change (run course (ev :: rest) st) with (run course rest (step course st ev)).
  apply IH. clear IH.
  assert (Hadv : isCopied (advance (timeOf ev) st) = true ->
                 timeouts (advance (timeOf ev) st) <> []).
  { unfold advance. destruct (existsb _ _); [cbn; discriminate | exact Hinv]. }
  unfold step. destruct ev as [now | at_ | at_].
  - unfold handleCopy. destruct (_ <? 500); [exact Hadv | cbn; exact Hadv].
  - unfold writeResolved. destruct (pendingWrites _); [exact Hadv |].
    cbn. intros _ H. apply app_eq_nil in H as [_ H]. discriminate H.
  - unfold writeRejected. destruct (pendingWrites _); [exact Hadv | cbn; exact Hadv].
Qed.

(** X14: the indicator never stays on for good.  After any sequence of
    invocations, resolved and rejected writes from the first render on, an
    indicator that is on has a timeout pending, and once every pending
    timeout is due the indicator is off. *)
Theorem X14_indicator_turns_off (evs : list Event) (t : Z)
    (Hdue : Forall (fun due => due <= t) (timeouts (run course evs initialState))) :
  (isCopied (run course evs initialState) = true ->
   timeouts (run course evs initialState) <> [])
  /\ copiedAt t (run course evs initialState) = false.
Proof.
  assert (Hinv : isCopied (run course evs initialState) = true ->
                 timeouts (run course evs initialState) <> []).
  { apply indicator_invariant. cbn. discriminate. }
  split; [exact Hinv |].
  unfold copiedAt, advance.
  destruct (existsb _ _) eqn:E; [reflexivity |].
  destruct (timeouts (run course evs initialState)) as [| due rest] eqn:Et.
  - destruct (isCopied (run course evs initialState)); [| reflexivity].
    exfalso. apply Hinv; reflexivity.
  - inversion Hdue; subst. cbn in E.
    destruct (Z.leb_spec due t); [discriminate | lia].
Qed.

End CopyRateFacts.

Section CopyRateWitnesses.
Import Course PopupCourseBlock PopupCourseBlockEffects.

Lemma X12_copy_rate_limit_witness :
  let course := mkCourse 1234 "OPEN"%string in
  let evs := [Copy 1000; Copy 1100; WriteResolved 1120; Copy 1400; Copy 1499] in
  1000 <= 1499
  /\ copiesWithin 1000 1499 evs
  /\ Z.of_nat (List.length (clipboard (run course evs initialState))) <= 0 + 1 + 0.
Proof.
  intros course evs.
  assert (H1 : 1000 <= 1499) by lia.
  assert (H2 : copiesWithin 1000 1499 evs).
  { unfold copiesWithin, evs. repeat constructor; lia. }
  split; [exact H1 |]. split; [exact H2 |].
  exact (X12_copy_rate_limit course initialState 1000 1499 evs H1 H2).
Defined.

Lemma X13_failed_write_arms_guard_witness :
  let course := mkCourse 1234 "OPEN"%string in
  let st1 := writeRejected (handleCopy course 1000 initialState) in
  500 <= 1000 - lastCopyTime initialState
  /\ 1200 - 1000 < 500
  /\ handleCopy course 1200 st1 = st1.
Proof.
  intros course st1.
  assert (H1 : 500 <= 1000 - lastCopyTime initialState) by (cbn; lia).
  assert (H2 : 1200 - 1000 < 500) by lia.
  split; [exact H1 |]. split; [exact H2 |].
  destruct (X13_failed_write_arms_guard course initialState 1000 1200 H1 H2)
    as (_ & _ & _ & _ & _ & H).
  exact H.
Defined.

Lemma X14_indicator_turns_off_witness :
  let course := mkCourse 1234 "OPEN"%string in
  let evs := [Copy 1000; WriteResolved 1020; Copy 1500; WriteResolved 1505] in
  Forall (fun due => due <= 2005) (timeouts (run course evs initialState))
  /\ copiedAt 2005 (run course evs initialState) = false.
Proof.
  intros course evs.
  assert (H : Forall (fun due => due <= 2005) (timeouts (run course evs initialState))).
  { cbn. repeat constructor; lia. }
  split; [exact H |].
  exact (proj2 (X14_indicator_turns_off course evs 2005 H)).
Defined.

End CopyRateWitnesses.

Section MountEffectFacts.
Import OptionsStore PopupCourseBlockEffects.

Lemma unmount_mount_wellFormed (store : @Store PopupCourseBlock.State) :
  wellFormed store ->
  wellFormed (PopupCourseBlock.unmount (fst (PopupCourseBlock.mount store))
                (snd (PopupCourseBlock.mount store))).
Proof.
  intros Hwf. unfold wellFormed.
  rewrite (PopupCourseBlock_unmount_mount store Hwf).
  eapply Forall_impl; [| exact Hwf].
  cbn. intros l Hl. lia.
Qed.

Lemma mountCycles_listeners (n : nat) :
  forall store : @Store PopupCourseBlock.State,
    wellFormed store ->
    listeners (mountCycles n store) = listeners store
    /\ wellFormed (mountCycles n store).
Proof.
  induction n as [| n IH]; intros store Hwf; [split; [reflexivity | exact Hwf] |].
  cbn [mountCycles].
  destruct (IH _ (unmount_mount_wellFormed store Hwf)) as [Hl Hw].
  split; [| exact Hw].
  rewrite Hl. apply PopupCourseBlock_unmount_mount. exact Hwf.
Qed.

(** X15: no listener leaks over remounts.  After any number of mount
    cycles the store holds the listeners it held before the first one, and
    a block mounted after them is the only one subscribed on its behalf:
    the store has exactly two listeners more, one per setting, and a
    change notification is delivered to the state once, as after a first
    mount. *)
Theorem X15_no_listener_leak (n : nat) (store : @Store PopupCourseBlock.State)
    (Hwf : wellFormed store) :
  listeners (mountCycles n store) = listeners store
  /\ subscribedKeys (snd (PopupCourseBlock.mount (mountCycles n store)))
     = subscribedKeys store
       ++ ["enableCourseStatusChips"; "enableTimeAndLocationInPopup"]%string
  /\ (forall k v st,
        notify k v (snd (PopupCourseBlock.mount (mountCycles n store))) st
        = notify k v (snd (PopupCourseBlock.mount store)) st).
Proof.
  destruct (mountCycles_listeners n store Hwf) as [Hl _].
  split; [exact Hl |]. split.
  - unfold subscribedKeys. cbn. rewrite Hl, <- app_assoc, map_app. reflexivity.
  - intros k v st. unfold notify. cbn. rewrite Hl, <- !app_assoc.
    rewrite !fold_left_app. reflexivity.
Qed.

Lemma animationFrames_idle (attached : list bool) (f : Frames) :
  queued f = None -> animationFrames f attached = f.
Proof.
  intros Hq. induction attached as [| b rest IH]; [reflexivity |].
  cbn [animationFrames fold_left]. unfold animationFrame at 2. rewrite Hq.
  exact IH.
Qed.

(** X16: the transition class is added by the third animation frame after
    the mount and by no other: the class list is empty after fewer than
    three frames, and after three or more it holds the class exactly when
    the element was attached at the third frame; nothing is left queued
    then. *)
Theorem X16_transition_after_three_frames (attached : list bool) :
  classList (animationFrames mountFrames attached)
  = (if nth 2 attached false then ["transition-shadow-100"%string] else [])
  /\ ((List.length attached < 3)%nat ->
      classList (animationFrames mountFrames attached) = []
      /\ queued (animationFrames mountFrames attached) <> None)
  /\ ((3 <= List.length attached)%nat ->
      queued (animationFrames mountFrames attached) = None).
Proof.
  destruct attached as [| b1 [| b2 [| b3 rest]]].
  - cbn. repeat split; try discriminate; intros; lia.
  - cbn. repeat split; try discriminate; intros; lia.
  - cbn. repeat split; try discriminate; intros; lia.
  - change (animationFrames mountFrames (b1 :: b2 :: b3 :: rest))
      with (animationFrames
              {| queued := None;
                 classList := if b3 then ["transition-shadow-100"%string] else [] |} rest).
    rewrite animationFrames_idle by reflexivity.
    cbn. repeat split; try reflexivity; intros; lia.
Qed.

End MountEffectFacts.

Lemma X15_no_listener_leak_witness :
  OptionsStore.wellFormed (@OptionsStore.emptyStore PopupCourseBlock.State)
  /\ OptionsStore.listeners (PopupCourseBlockEffects.mountCycles 3 OptionsStore.emptyStore)
     = [].
Proof.
  assert (H : OptionsStore.wellFormed (@OptionsStore.emptyStore PopupCourseBlock.State))
    by constructor.
  split; [exact H |].
  exact (proj1 (X15_no_listener_leak 3 OptionsStore.emptyStore H)).
Defined.

Lemma X16_transition_after_three_frames_witness :
  (List.length [true; true] < 3)%nat
  /\ PopupCourseBlockEffects.classList
       (PopupCourseBlockEffects.animationFrames PopupCourseBlockEffects.mountFrames
          [true; true]) = [].
Proof.
  assert (H : (List.length [true; true] < 3)%nat) by (cbn; lia).
  split; [exact H |].
  exact (proj1 (proj1 (proj2 (X16_transition_after_three_frames [true; true])) H)).
Defined.
